(** * LeatherCad: scripts/generate_extraction_artifacts.py

    A shallow embedding of the extraction script (section parser, action
    canonicaliser, cluster and control classifiers, ticket reconciliation
    and the two artifact builders) together with the properties its
    specification states about them. *)

From Stdlib Require Import NArith String Ascii.
From stdpp Require Import base decidable option list sorting gmap.

Local Open Scope N_scope.

(** ** Python strings

    A Python [str] is a sequence of Unicode code points; a code point is
    modelled as an [N] and a string as a list of them.  Literals of the
    source are written [py "..."]. *)

Module PyStr.

Abbreviation pystr := (list N).

Definition py (s : string) : pystr :=
  map N_of_ascii (list_ascii_of_string s).

(** [Py_UNICODE_ISSPACE]: the code points [str.strip], [str.isspace] and
    the regular expression class [\s] treat as white space. *)
Definition is_space (c : N) : bool :=
  ((9 <=? c) && (c <=? 13)) || ((28 <=? c) && (c <=? 32))
  || (c =? 133) || (c =? 160) || (c =? 5760)
  || ((8192 <=? c) && (c <=? 8202))
  || (c =? 8232) || (c =? 8233) || (c =? 8239) || (c =? 8287)
  || (c =? 12288).

Fixpoint lstrip_by (f : N -> bool) (s : pystr) : pystr :=
  match s with
  | [] => []
  | c :: s' => if f c then lstrip_by f s' else s
  end.

Definition rstrip_by (f : N -> bool) (s : pystr) : pystr :=
  rev (lstrip_by f (rev s)).

Definition lstrip : pystr -> pystr := lstrip_by is_space.
Definition rstrip : pystr -> pystr := rstrip_by is_space.

(** [s.strip()] *)
Definition strip (s : pystr) : pystr := rstrip (lstrip s).

(** [s.startswith(p)] *)
Fixpoint startswith (s p : pystr) : bool :=
  match p, s with
  | [], _ => true
  | _ :: _, [] => false
  | a :: p', c :: s' => (c =? a) && startswith s' p'
  end.

(** [s.startswith((p1, ..., pn))] *)
Definition startswith_any (s : pystr) (ps : list pystr) : bool :=
  existsb (startswith s) ps.

(** [s.endswith(p)] *)
Definition endswith (s p : pystr) : bool := startswith (rev s) (rev p).

(** [p in s] for strings. *)
Fixpoint contains (s p : pystr) : bool :=
  startswith s p ||
  match s with
  | [] => false
  | _ :: s' => contains s' p
  end.

(** [s.replace(old, new)] for a non-empty [old]: occurrences are found
    from the left and do not overlap.  [skip] counts the characters of
    the occurrence just replaced that are still to be passed over. *)
Fixpoint replace_from (old new : pystr) (skip : nat) (s : pystr) : pystr :=
  match s with
  | [] => []
  | c :: s' =>
      match skip with
      | S k => replace_from old new k s'
      | O =>
          if startswith s old
          then new ++ replace_from old new (length old - 1) s'
          else c :: replace_from old new 0 s'
      end
  end.

Definition replace (s old new : pystr) : pystr := replace_from old new 0 s.

(** [sep.join(parts)] *)
Fixpoint join (sep : pystr) (parts : list pystr) : pystr :=
  match parts with
  | [] => []
  | [p] => p
  | p :: ps => p ++ sep ++ join sep ps
  end.

(** Code point order on strings, the order of [sorted] and [<]. *)
Fixpoint str_leb (s t : pystr) : bool :=
  match s, t with
  | [], _ => true
  | _ :: _, [] => false
  | a :: s', b :: t' => (a <? b) || ((a =? b) && str_leb s' t')
  end.

Definition str_le (s t : pystr) : Prop := str_leb s t = true.
Definition str_lt (s t : pystr) : Prop := str_le s t ∧ s ≠ t.

End PyStr.
Export PyStr.

(** ** The action canonicaliser *)

Definition canonicalize_action (action : pystr) : pystr :=
  let value := strip action in
  let value :=
    if endswith value (py "Execute")
    then take (length value - length (py "Execute")) value
    else value in
  let value := replace value (py "LinePallet") (py "LinePalette") in
  value.

(** ** The cluster classifier *)

Definition classify_cluster (action : pystr) : pystr :=
  if startswith_any action
       [py "actAlign"; py "actRotate"; py "actScale"; py "actSpecify";
        py "actSetAs"; py "actMoveOrCopy"]
  then py "Transforms"
  else if startswith action (py "actLinePalette")
          || startswith action (py "actLinePallet")
  then py "LineTypePalette"
  else if startswith_any action
       [py "actCenterLine"; py "actConvert"; py "actReversePath";
        py "actSplitIntoN"; py "actDrawBoundary"; py "actDrawGoldenSpiral";
        py "actDeleteDuplicates"; py "actEditShapeSize";
        py "actEditLineAngle"; py "actLineSymmetry"; py "actDesignHelper_"]
  then py "GeometryEdit"
  else if startswith_any action
       [py "actSelect"; py "actDeselect"; py "actDeleteSelected";
        py "actCreateGroup"; py "actUngroup"; py "actOrder"]
  then py "SelectionOrdering"
  else if startswith_any action
       [py "actNewProject"; py "actLoadProject"; py "actSaveProject";
        py "actClose"; py "actOpenDemoProject"; py "actOpenOptions";
        py "actClearAll"]
  then py "ProjectLifecycle"
  else if startswith_any action
       [py "actShowHideGrid"; py "actShowHideScale";
        py "actShowHideDimensionLines"; py "actShowHidePrintAreas";
        py "actSetGridBackground"; py "actResetView"]
  then py "ViewportDisplay"
  else if startswith_any action [py "actShow"; py "actView"; py "actVisit"]
  then py "HelpLinks"
  else if startswith action (py "actSecret")
  then py "SecretBonus"
  else if startswith_any action [py "actLayer"; py "actIgnoreLayer"]
  then py "LayerAdvanced"
  else py "Other".

(** ** The control classifiers *)

Definition infer_control_kind (control_id : pystr) : pystr :=
  if startswith control_id (py "chk") then py "checkbox"
  else if startswith control_id (py "cmb") then py "select"
  else if startswith control_id (py "rb") then py "radio"
  else if startswith control_id (py "nb") then py "number"
  else if startswith control_id (py "ed") then py "text"
  else if startswith control_id (py "btn") then py "button"
  else if startswith control_id (py "lbl") then py "label"
  else if startswith control_id (py "gb") then py "group"
  else if startswith control_id (py "tab") then py "tab"
  else if startswith control_id (py "tv") then py "tree"
  else if startswith_any control_id [py "sw"; py "switch"] then py "switch"
  else py "other".

(** [any(token in s for token in tokens)] *)
Definition contains_any (s : pystr) (tokens : list pystr) : bool :=
  existsb (contains s) tokens.

(** [str.lower] on a code point of the ASCII range. *)
Definition ascii_lower_cp (c : N) : N :=
  if (65 <=? c) && (c <=? 90) then c + 32 else c.

Definition ascii_lower (s : pystr) : pystr := map ascii_lower_cp s.

Definition is_ascii (s : pystr) : Prop := Forall (fun c => c < 128) s.

Section ControlDomain.

(** [str.lower] belongs to the Python runtime: its full Unicode case
    mapping is not a per-character table (one code point may lower to
    two), so the classifier takes it as [lower].  What the runtime
    guarantees on ASCII text is [lower_spec]. *)
Variable lower : pystr -> pystr.

Definition lower_spec : Prop :=
  forall s, is_ascii s -> lower s = ascii_lower s.

Definition infer_control_domain (control_id : pystr) : pystr :=
  let lower := lower control_id in
  if contains_any lower [py "stitch"; py "prick"; py "thread"]
  then py "stitching"
  else if contains_any lower [py "svg"; py "dxf"]
  then py "export"
  else if contains lower (py "print") || contains lower (py "tile")
          || contains lower (py "dpi")
  then py "print"
  else if contains_any lower [py "palette"; py "line"; py "color"]
  then py "line-types"
  else if contains_any lower
            [py "auto"; py "pitch"; py "zoom"; py "save"; py "option"]
  then py "options"
  else if contains_any lower [py "repo"; py "catalog"; py "template"]
  then py "repository"
  else py "general".

End ControlDomain.

(** ** The section parser *)

Record FormSection := mkFormSection {
  resource_file : pystr;
  form_name : pystr;
  actions : list pystr;
  controls : list pystr
}.

(** [HEADER_PATTERN = ^===\s+(.+?)\s+\|\s+(.+?)\s+\|], matched with
    [re.match]: a backtracking matcher in continuation style, each
    combinator trying its alternatives in the order [re] does. *)
Module HeaderPattern.

(** A literal. *)
Definition lit {A} (p : pystr) (k : pystr -> option A) (s : pystr)
  : option A :=
  if startswith s p then k (drop (length p) s) else None.

(** [c+] for a character class: as many as possible first. *)
Fixpoint plus {A} (cls : N -> bool) (k : pystr -> option A) (s : pystr)
  : option A :=
  match s with
  | [] => None
  | c :: s' =>
      if cls c
      then match plus cls k s' with
           | Some r => Some r
           | None => k s'
           end
      else None
  end.

(** [(c+?)] for a character class: as few as possible first; the
    continuation receives the text of the group. *)
Fixpoint lazy_group {A} (cls : N -> bool) (k : pystr -> pystr -> option A)
  (s : pystr) : option A :=
  match s with
  | [] => None
  | c :: s' =>
      if cls c
      then match k [c] s' with
           | Some r => Some r
           | None => lazy_group cls (fun g => k (c :: g)) s'
           end
      else None
  end.

(** [.] without DOTALL: anything but a line feed. *)
Definition dot (c : N) : bool := negb (c =? 10).

(** The two groups of a match, [None] when the line does not match. *)
Definition match_ (line : pystr) : option (pystr * pystr) :=
  lit (py "===")
    (plus is_space
      (lazy_group dot (fun g1 =>
        plus is_space
          (lit (py "|")
            (plus is_space
              (lazy_group dot (fun g2 =>
                plus is_space
                  (lit (py "|") (fun _ => Some (g1, g2))))))))))
    line.

End HeaderPattern.

Inductive Mode := ModeNone | ModeActions | ModeControls.

Record ParseState := mkParseState {
  ps_forms : list FormSection;
  ps_current : option FormSection;
  ps_mode : Mode
}.

(** [s.rstrip("\n")] *)
Definition rstrip_nl : pystr -> pystr := rstrip_by (fun c => c =? 10).

(** [not s.strip()] *)
Definition is_blank (s : pystr) : bool :=
  match strip s with [] => true | _ => false end.

Definition append_action (f : FormSection) (a : pystr) : FormSection :=
  mkFormSection (resource_file f) (form_name f) (actions f ++ [a]) (controls f).

Definition append_control (f : FormSection) (c : pystr) : FormSection :=
  mkFormSection (resource_file f) (form_name f) (actions f) (controls f ++ [c]).

(** One iteration of the loop over the lines of the file. *)
Definition parse_line (st : ParseState) (raw_line : pystr) : ParseState :=
  let line := rstrip_nl raw_line in
  match HeaderPattern.match_ line with
  | Some (g1, g2) =>
      let forms :=
        match ps_current st with
        | Some current => ps_forms st ++ [current]
        | None => ps_forms st
        end in
      mkParseState forms (Some (mkFormSection (strip g1) (strip g2) [] []))
        ModeNone
  | None =>
      match ps_current st with
      | None => st
      | Some current =>
          if startswith line (py "Actions (")
          then mkParseState (ps_forms st) (Some current) ModeActions
          else if startswith line (py "Controls (")
          then mkParseState (ps_forms st) (Some current) ModeControls
          else if is_blank line then st
          else match ps_mode st with
               | ModeActions =>
                   mkParseState (ps_forms st)
                     (Some (append_action current (strip line))) ModeActions
               | ModeControls =>
                   mkParseState (ps_forms st)
                     (Some (append_control current (strip line))) ModeControls
               | ModeNone => st
               end
      end
  end.

Definition finish (st : ParseState) : list FormSection :=
  match ps_current st with
  | Some current => ps_forms st ++ [current]
  | None => ps_forms st
  end.

(** The argument is the sequence of lines the open file yields. *)
Definition parse_form_sections (lines : list pystr) : list FormSection :=
  finish (foldl parse_line (mkParseState [] None ModeNone) lines).

(** ** [sorted]

    Python's sort is stable; on a list without equal keys every sort
    gives the same result.  [sort_by key] is the stable insertion sort
    on the code point order of the keys. *)

Section Sorting.

Context {A : Type} (key : A -> pystr).

Fixpoint insert_by (x : A) (l : list A) : list A :=
  match l with
  | [] => [x]
  | y :: l' =>
      if str_leb (key x) (key y) then x :: l else y :: insert_by x l'
  end.

Definition sort_by (l : list A) : list A := foldr insert_by [] l.

End Sorting.

(** [sorted(xs)] for strings. *)
Definition py_sorted : list pystr -> list pystr := sort_by id.

(** ** The ticket map *)

(** A value of a row that [csv.DictReader] yields: a field of the line,
    or [None] for a column the line is too short to fill. *)
Inductive pyval := PyNone | PyStr (s : pystr).

(** A row of the CSV file, a [dict] from column names to values. *)
Abbreviation csvrow := (gmap pystr pyval).

(** [row.get(k) or ""] *)
Definition get_or_empty (row : csvrow) (k : pystr) : pystr :=
  match row !! k with
  | Some (PyStr s) => s
  | _ => []
  end.

(** [row.get(k, "")] *)
Definition get_default (row : csvrow) (k : pystr) : pyval :=
  default (PyStr []) (row !! k).

(** The argument is the sequence of rows the [DictReader] yields. *)
Definition load_action_ticket_map (rows : list csvrow) : gmap pystr csvrow :=
  foldl (fun mapping row =>
           let action := strip (get_or_empty row (py "action")) in
           match action with
           | [] => mapping
           | _ => <[action := row]> mapping
           end)
        ∅ rows.

(** ** The action matrix *)

(** [{"aliases": set(), "forms": set()}] *)
Record ActionItem := mkActionItem {
  item_aliases : gset pystr;
  item_forms : gset pystr
}.

#[global] Instance ActionItem_inhabited : Inhabited ActionItem :=
  populate (mkActionItem ∅ ∅).

Definition source_forms : gset pystr :=
  {[ py "TfrmLeat"; py "TfrmLeat_Macintosh" ]}.

(** The body of the inner loop: one raw action of the form [name]. *)
Definition add_action (name : pystr) (by_action : gmap pystr ActionItem)
  (raw_action : pystr) : gmap pystr ActionItem :=
  let canonical := canonicalize_action raw_action in
  if startswith canonical (py "act")
  then
    let item := default (mkActionItem ∅ ∅) (by_action !! canonical) in
    <[canonical := mkActionItem (item_aliases item ∪ {[raw_action]})
                                (item_forms item ∪ {[name]})]> by_action
  else by_action.

(** The body of the outer loop. *)
Definition add_form (by_action : gmap pystr ActionItem) (form : FormSection)
  : gmap pystr ActionItem :=
  if decide (form_name form ∈ source_forms)
  then foldl (add_action (form_name form)) by_action (actions form)
  else by_action.

Definition collect_actions (forms : list FormSection)
  : gmap pystr ActionItem :=
  foldl add_form ∅ forms.

Record ActionMatrixRow := mkActionMatrixRow {
  row_action : pystr;
  row_aliases : pystr;
  row_source_forms : pystr;
  row_cluster : pystr;
  row_mapped_ticket : pyval;
  row_feature_group : pyval;
  row_phase : pyval;
  row_status : pystr
}.

(** The inner [for alias in aliases] loop: the first alias that is a key. *)
Fixpoint lookup_first (ticket_map : gmap pystr csvrow) (aliases : list pystr)
  : option csvrow :=
  match aliases with
  | [] => None
  | alias :: rest =>
      match ticket_map !! alias with
      | Some matched => Some matched
      | None => lookup_first ticket_map rest
      end
  end.

Definition reconcile (ticket_map : gmap pystr csvrow) (canonical : pystr)
  (aliases : list pystr) : option csvrow :=
  match ticket_map !! canonical with
  | Some matched => Some matched
  | None => lookup_first ticket_map aliases
  end.

(** The row appended for one canonical action, from its sorted aliases
    and sorted form names. *)
Definition make_row (ticket_map : gmap pystr csvrow) (canonical : pystr)
  (aliases forms_for_action : list pystr) : ActionMatrixRow :=
  match reconcile ticket_map canonical aliases with
  | Some matched =>
      mkActionMatrixRow canonical (join (py ";") aliases)
        (join (py ";") forms_for_action) (classify_cluster canonical)
        (get_default matched (py "ticket_id"))
        (get_default matched (py "feature_group"))
        (get_default matched (py "phase"))
        (py "mapped")
  | None =>
      mkActionMatrixRow canonical (join (py ";") aliases)
        (join (py ";") forms_for_action) (classify_cluster canonical)
        (PyStr []) (PyStr []) (PyStr []) (py "unmapped")
  end.

(** [sorted(by_action[canonical]["aliases"])] and
    [sorted(by_action[canonical]["forms"])]; [canonical] is always a key
    of [by_action] where these are called. *)
Definition aliases_of (by_action : gmap pystr ActionItem) (canonical : pystr)
  : list pystr :=
  py_sorted (elements (item_aliases (by_action !!! canonical))).

Definition forms_of (by_action : gmap pystr ActionItem) (canonical : pystr)
  : list pystr :=
  py_sorted (elements (item_forms (by_action !!! canonical))).

Definition build_action_matrix (forms : list FormSection)
  (ticket_map : gmap pystr csvrow) : list ActionMatrixRow :=
  let by_action := collect_actions forms in
  map (fun canonical =>
         make_row ticket_map canonical
           (aliases_of by_action canonical) (forms_of by_action canonical))
      (py_sorted (elements (dom by_action))).

(** ** The form schema *)

(** [{"id": ..., "kind": ..., "domain": ...}] *)
Record ControlRecord := mkControlRecord {
  ctl_id : pystr;
  ctl_kind : pystr;
  ctl_domain : pystr
}.

(** An entry of ["forms"]; the two count dictionaries are given as the
    lists of their items, in the order the dictionary holds them. *)
Record FormEntry := mkFormEntry {
  fe_form_name : pystr;
  fe_resource_file : pystr;
  fe_action_count : nat;
  fe_control_count : nat;
  fe_kind_counts : list (pystr * nat);
  fe_domain_counts : list (pystr * nat);
  fe_controls : list ControlRecord
}.

Record SchemaDocument := mkSchemaDocument {
  doc_generated_at_utc : pystr;
  doc_source_files : pystr * pystr;
  doc_forms : list FormEntry
}.

Definition target_forms : gset pystr :=
  {[ py "TfrmOptions"; py "TfrmOptions_Macintosh";
     py "TfrmSVGExportOptions"; py "TfrmSVGExportOptions_Macintosh";
     py "TfrmStitchingHoleSettings"; py "TfrmChangeStitchingHoleType";
     py "TfrmEditPallet"; py "TfrmEditPallet_Macintosh";
     py "TfrmPreview"; py "TfrmPreview_Macintosh";
     py "TfrmRepository"; py "TfrmRepository_Macintosh" ]}.

Definition FORM_DETAILS_PATH : pystr :=
  py "/home/workspace/workspace/leather-making/extracted-rsrc/rsrc_form_details.txt".

Definition ACTION_TICKET_MAP_PATH : pystr :=
  py "/home/workspace/workspace/leather-making/source_app_action_ticket_map.csv".

(** [counts[k] += 1] on a [defaultdict(int)] *)
Definition bump (k : pystr) (counts : gmap pystr nat) : gmap pystr nat :=
  <[k := (default 0 (counts !! k) + 1)%nat]> counts.

(** [dict(sorted(counts.items()))]: the keys of a dictionary are
    distinct, so the items are ordered by their keys. *)
Definition sorted_items (counts : gmap pystr nat) : list (pystr * nat) :=
  sort_by fst (map_to_list counts).

Section FormSchema.

Variable lower : pystr -> pystr.

(** The state of the loop over the controls of one form. *)
Record Tally := mkTally {
  t_controls : list ControlRecord;
  t_kind_counts : gmap pystr nat;
  t_domain_counts : gmap pystr nat
}.

Definition tally_control (t : Tally) (control_id : pystr) : Tally :=
  let kind := infer_control_kind control_id in
  let domain := infer_control_domain lower control_id in
  mkTally (t_controls t ++ [mkControlRecord control_id kind domain])
          (bump kind (t_kind_counts t))
          (bump domain (t_domain_counts t)).

Definition form_entry (form : FormSection) : FormEntry :=
  let t := foldl tally_control (mkTally [] ∅ ∅) (controls form) in
  mkFormEntry (form_name form) (resource_file form)
    (length (actions form)) (length (controls form))
    (sorted_items (t_kind_counts t)) (sorted_items (t_domain_counts t))
    (t_controls t).

(** [now] is the text of [datetime.now(timezone.utc).isoformat(...)]. *)
Definition build_form_schema (now : pystr) (forms : list FormSection)
  : SchemaDocument :=
  let selected_forms :=
    filter (fun form => form_name form ∈ target_forms) forms in
  let selected_forms := sort_by form_name selected_forms in
  mkSchemaDocument now (FORM_DETAILS_PATH, ACTION_TICKET_MAP_PATH)
    (map form_entry selected_forms).

End FormSchema.

Definition demo_forms : list FormSection :=
  [ mkFormSection (py "a.rsrc") (py "TfrmLeat")
      [py "actAlignLeftExecute"; py "actAlignLeft"; py "noise"] [];
    mkFormSection (py "b.rsrc") (py "TfrmOptions")
      [py "actZoom"] [py "chkStitchAutoSave"; py "btnOk"; py "chkGrid"] ].

Definition demo_ticket_map : gmap pystr csvrow :=
  load_action_ticket_map
    [ list_to_map [ (py "action", PyStr (py "actAlignLeft"));
                    (py "ticket_id", PyStr (py "T-1"));
                    (py "feature_group", PyStr (py "Transforms"));
                    (py "phase", PyStr (py "1")) ] ].

(** The lines of a small form-details file. *)
Definition demo_lines : list pystr :=
  [ py "rsrc dump" ++ [10];
    py "=== a.rsrc | TfrmLeat | 2 actions" ++ [10];
    py "Actions (2):" ++ [10];
    py "  actAlignLeftExecute" ++ [10];
    [10];
    py "  actLinePalletEdit  " ++ [10];
    py "Controls (1):" ++ [10];
    py "  btnOk" ++ [10];
    py "=== b.rsrc | TfrmOptions |" ++ [10];
    py "stray" ++ [10];
    py "Controls (0):" ].

(** A ticket map with a repeated key, a blank action and an alias. *)
Definition demo_rows : list csvrow :=
  [ list_to_map [ (py "action", PyStr (py " actAlignLeftExecute "));
                  (py "ticket_id", PyStr (py "T-1")) ];
    list_to_map [ (py "action", PyStr (py "   "));
                  (py "ticket_id", PyStr (py "T-2")) ];
    list_to_map [ (py "action", PyNone) ];
    list_to_map [ (py "action", PyStr (py "actAlignLeftExecute"));
                  (py "ticket_id", PyStr (py "T-3"));
                  (py "phase", PyNone) ] ].

(** ** The rule tables of the specification

    The specification describes the three classifiers as ordered tables
    of rules, each a list of literals with its category, read from the
    top with the first matching rule winning.  [first_match] follows
    those words; the classifiers above follow the source. *)

Definition first_match (test : pystr -> list pystr -> bool)
  (rules : list (list pystr * pystr)) (default : pystr) (s : pystr) : pystr :=
  match find (fun rule => test s (fst rule)) rules with
  | Some rule => snd rule
  | None => default
  end.

Definition cluster_rules : list (list pystr * pystr) :=
  [ ([py "actAlign"; py "actRotate"; py "actScale"; py "actSpecify";
      py "actSetAs"; py "actMoveOrCopy"], py "Transforms");
    ([py "actLinePalette"; py "actLinePallet"], py "LineTypePalette");
    ([py "actCenterLine"; py "actConvert"; py "actReversePath";
      py "actSplitIntoN"; py "actDrawBoundary"; py "actDrawGoldenSpiral";
      py "actDeleteDuplicates"; py "actEditShapeSize"; py "actEditLineAngle";
      py "actLineSymmetry"; py "actDesignHelper_"], py "GeometryEdit");
    ([py "actSelect"; py "actDeselect"; py "actDeleteSelected";
      py "actCreateGroup"; py "actUngroup"; py "actOrder"],
     py "SelectionOrdering");
    ([py "actNewProject"; py "actLoadProject"; py "actSaveProject";
      py "actClose"; py "actOpenDemoProject"; py "actOpenOptions";
      py "actClearAll"], py "ProjectLifecycle");
    ([py "actShowHideGrid"; py "actShowHideScale";
      py "actShowHideDimensionLines"; py "actShowHidePrintAreas";
      py "actSetGridBackground"; py "actResetView"], py "ViewportDisplay");
    ([py "actShow"; py "actView"; py "actVisit"], py "HelpLinks");
    ([py "actSecret"], py "SecretBonus");
    ([py "actLayer"; py "actIgnoreLayer"], py "LayerAdvanced") ].

Definition cluster_categories : list pystr :=
  [ py "Transforms"; py "LineTypePalette"; py "GeometryEdit";
    py "SelectionOrdering"; py "ProjectLifecycle"; py "ViewportDisplay";
    py "HelpLinks"; py "SecretBonus"; py "LayerAdvanced"; py "Other" ].

Definition kind_rules : list (list pystr * pystr) :=
  [ ([py "chk"], py "checkbox"); ([py "cmb"], py "select");
    ([py "rb"], py "radio"); ([py "nb"], py "number");
    ([py "ed"], py "text"); ([py "btn"], py "button");
    ([py "lbl"], py "label"); ([py "gb"], py "group");
    ([py "tab"], py "tab"); ([py "tv"], py "tree");
    ([py "sw"; py "switch"], py "switch") ].

Definition kind_categories : list pystr :=
  [ py "checkbox"; py "select"; py "radio"; py "number"; py "text";
    py "button"; py "label"; py "group"; py "tab"; py "tree"; py "switch";
    py "other" ].

Definition domain_rules : list (list pystr * pystr) :=
  [ ([py "stitch"; py "prick"; py "thread"], py "stitching");
    ([py "svg"; py "dxf"], py "export");
    ([py "print"; py "tile"; py "dpi"], py "print");
    ([py "palette"; py "line"; py "color"], py "line-types");
    ([py "auto"; py "pitch"; py "zoom"; py "save"; py "option"],
     py "options");
    ([py "repo"; py "catalog"; py "template"], py "repository") ].

Definition domain_categories : list pystr :=
  [ py "stitching"; py "export"; py "print"; py "line-types"; py "options";
    py "repository"; py "general" ].

(** ** Notions the properties are stated with *)

Definition LinePallet : pystr := py "LinePallet".

Definition LinePalette : pystr := py "LinePalette".

(** The key a row is filed under: its trimmed action column. *)
Definition row_key (row : csvrow) : pystr :=
  strip (get_or_empty row (py "action")).

(** The identity a header line gives its section, [None] for a line
    that is not a header. *)
Definition header_of (raw_line : pystr) : option (pystr * pystr) :=
  match HeaderPattern.match_ (rstrip_nl raw_line) with
  | Some (g1, g2) => Some (strip g1, strip g2)
  | None => None
  end.

Definition section_id (f : FormSection) : pystr * pystr :=
  (resource_file f, form_name f).

Definition blank_line (raw_line : pystr) : Prop :=
  is_blank (rstrip_nl raw_line) = true.

#[global] Instance blank_line_dec raw_line : Decision (blank_line raw_line).
Proof. unfold blank_line. apply _. Defined.

(** The parser state with [done] put in front of the finished sections. *)
Definition prepend (done : list FormSection) (st : ParseState) : ParseState :=
  mkParseState (done ++ ps_forms st) (ps_current st) (ps_mode st).

Definition init_state : ParseState := mkParseState [] None ModeNone.

(** A raw action the matrix takes up: its canonical form is an action
    identifier. *)
Definition is_action (raw_action : pystr) : Prop :=
  startswith (canonicalize_action raw_action) (py "act") = true.

(** The forms the matrix reads, each with the raw actions it takes up. *)
Definition prune_form (f : FormSection) : FormSection :=
  mkFormSection (resource_file f) (form_name f)
    (filter is_action (actions f)) (controls f).

Definition prune (forms : list FormSection) : list FormSection :=
  prune_form <$> filter (fun f => form_name f ∈ source_forms) forms.

(** [c] is the canonical form of a raw action of an allow-listed form
    and is an action identifier. *)
Definition sourced (forms : list FormSection) (c : pystr) : Prop :=
  exists f raw_action,
    f ∈ forms /\ form_name f ∈ source_forms /\ raw_action ∈ actions f
    /\ canonicalize_action raw_action = c /\ is_action raw_action.

(** [raw_action] is a raw action of an allow-listed form with the
    canonical form [c], an action identifier. *)
Definition alias_source (forms : list FormSection) (c raw_action : pystr)
  : Prop :=
  exists f,
    f ∈ forms /\ form_name f ∈ source_forms /\ raw_action ∈ actions f
    /\ canonicalize_action raw_action = c /\ is_action raw_action.

(** [name] is an allow-listed form with a raw action of canonical form
    [c], an action identifier. *)
Definition form_source (forms : list FormSection) (c name : pystr) : Prop :=
  exists f raw_action,
    f ∈ forms /\ form_name f ∈ source_forms /\ form_name f = name
    /\ raw_action ∈ actions f
    /\ canonicalize_action raw_action = c /\ is_action raw_action.

(** The form [f] with the action list [raw_actions]. *)
Definition with_actions (f : FormSection) (raw_actions : list pystr)
  : FormSection :=
  mkFormSection (resource_file f) (form_name f) raw_actions (controls f).

(** The fields a row takes from the entry of the ticket map it matched. *)
Definition mapped_from (row : ActionMatrixRow) (entry : csvrow) : Prop :=
  row_mapped_ticket row = get_default entry (py "ticket_id")
  /\ row_feature_group row = get_default entry (py "feature_group")
  /\ row_phase row = get_default entry (py "phase")
  /\ row_status row = py "mapped".

Definition unmapped (row : ActionMatrixRow) : Prop :=
  row_mapped_ticket row = PyStr [] /\ row_feature_group row = PyStr []
  /\ row_phase row = PyStr [] /\ row_status row = py "unmapped".

(** The sum of the values of a count dictionary. *)
Definition total_count (items : list (pystr * nat)) : nat :=
  sum_list_with snd items.

(** The order [sort_by key] sorts by. *)
Definition key_le {A} (key : A -> pystr) (x y : A) : Prop :=
  str_le (key x) (key y).

(** The record of a control. *)
Definition control_record (lower : pystr -> pystr) (control_id : pystr)
  : ControlRecord :=
  mkControlRecord control_id (infer_control_kind control_id)
    (infer_control_domain lower control_id).

(** A non-empty run of white space, and a non-empty text without a
    line feed: what [\s+] and [.+?] match. *)
Definition spaces (w : pystr) : Prop :=
  w <> [] /\ Forall (fun c => is_space c = true) w.

Definition text (g : pystr) : Prop :=
  g <> [] /\ Forall (fun c => HeaderPattern.dot c = true) g.

(** The lines of the language of [HEADER_PATTERN], with the two groups. *)
Definition header_shape (g1 g2 line : pystr) : Prop :=
  exists w1 w2 w3 w4 rest,
    line = py "===" ++ w1 ++ g1 ++ w2 ++ py "|" ++ w3 ++ g2 ++ w4
           ++ py "|" ++ rest
    /\ spaces w1 /\ text g1 /\ spaces w2 /\ spaces w3 /\ text g2
    /\ spaces w4.

(** The entry a line gives: its text without the line end, trimmed. *)
Definition line_text (raw_line : pystr) : pystr := strip (rstrip_nl raw_line).

Definition actions_marker (raw_line : pystr) : Prop :=
  startswith (rstrip_nl raw_line) (py "Actions (") = true.

Definition controls_marker (raw_line : pystr) : Prop :=
  startswith (rstrip_nl raw_line) (py "Controls (") = true.

(** A line that is neither a header nor a marker nor blank. *)
Definition entry_line (raw_line : pystr) : Prop :=
  header_of raw_line = None /\ ~ actions_marker raw_line
  /\ ~ controls_marker raw_line /\ ~ blank_line raw_line.

(** [a] is the entry of an entry line among [lines]. *)
Definition entry_of (lines : list pystr) (a : pystr) : Prop :=
  exists raw_line,
    raw_line ∈ lines /\ entry_line raw_line /\ a = line_text raw_line.

(** The section [f] comes from a header among [lines] and holds entries
    of entry lines among [lines] only. *)
Definition section_of (lines : list pystr) (f : FormSection) : Prop :=
  (exists raw_line,
     raw_line ∈ lines /\ header_of raw_line = Some (section_id f))
  /\ Forall (entry_of lines) (actions f)
  /\ Forall (entry_of lines) (controls f).

(** [sum(1 for row in action_rows if row["status"] == "mapped")] *)
Definition mapped_count (rows : list ActionMatrixRow) : nat :=
  length (filter (fun row => row_status row = py "mapped") rows).

(** ** The entry point

    [main] parses the form details, loads the ticket map, builds the
    two artifacts and prints two lines.  Its model takes what the two
    files hold and the time, and gives the rows handed to
    [write_action_matrix], the document handed to [write_form_schema]
    and the three numbers the two printed lines show. *)

Record Summary := mkSummary {
  sum_actions : nat;
  sum_mapped : nat;
  sum_forms : nat
}.

Record MainOutput := mkMainOutput {
  out_action_rows : list ActionMatrixRow;
  out_form_schema : SchemaDocument;
  out_summary : Summary
}.

Definition main (lower : pystr -> pystr) (now : pystr)
  (lines : list pystr) (csv_rows : list csvrow) : MainOutput :=
  let forms := parse_form_sections lines in
  let ticket_map := load_action_ticket_map csv_rows in
  let action_rows := build_action_matrix forms ticket_map in
  let form_schema := build_form_schema lower now forms in
  let mapped_count := mapped_count action_rows in
  mkMainOutput action_rows form_schema
    (mkSummary (length action_rows) mapped_count
       (length (doc_forms form_schema))).

(** How many of [ids] the classifier [f] puts in category [k]. *)
Definition count_of (f : pystr -> pystr) (k : pystr) (ids : list pystr) : nat :=
  length (filter (fun c => f c = k) ids).

(** The count dictionary [counts] tallies the classifier [f] over
    [ids]: a category has its number of identifiers when there is one,
    and no entry otherwise. *)
Definition tallies (f : pystr -> pystr) (ids : list pystr)
  (counts : gmap pystr nat) : Prop :=
  forall k,
    counts !! k
    = match count_of f k ids with O => None | n => Some n end.

(** The finished sections and the section in progress of a parser
    state come from [lines]. *)
Definition state_of (lines : list pystr) (st : ParseState) : Prop :=
  Forall (section_of lines) (ps_forms st)
  /\ (forall current, ps_current st = Some current -> section_of lines current).

(** * Properties *)

(** ** Runs on concrete inputs *)

Example canonicalize_action_ex1 :
  canonicalize_action (py "  actLinePalletOpenExecute ") = py "actLinePaletteOpen".
Proof. reflexivity. Qed.

Example infer_control_domain_ex1 :
  infer_control_domain ascii_lower (py "btnExportSVG") = py "export".
Proof. reflexivity. Qed.

Example header_match_ex1 :
  HeaderPattern.match_ (py "=== a.rsrc | TfrmLeat | 12 actions")
  = Some (py "a.rsrc", py "TfrmLeat").
Proof. reflexivity. Qed.

Example header_match_ex2 :
  HeaderPattern.match_ (py "===  a | b |  c  | d") = Some (py "a", py "b").
Proof. reflexivity. Qed.

Example build_action_matrix_scenario :
  build_action_matrix demo_forms demo_ticket_map
  = [ mkActionMatrixRow (py "actAlignLeft")
        (py "actAlignLeft;actAlignLeftExecute") (py "TfrmLeat")
        (py "Transforms") (PyStr (py "T-1")) (PyStr (py "Transforms"))
        (PyStr (py "1")) (py "mapped") ].
Proof. vm_compute. reflexivity. Qed.

Example parse_form_sections_demo :
  parse_form_sections demo_lines
  = [ mkFormSection (py "a.rsrc") (py "TfrmLeat")
        [py "actAlignLeftExecute"; py "actLinePalletEdit"] [py "btnOk"];
      mkFormSection (py "b.rsrc") (py "TfrmOptions") [] [] ].
Proof. vm_compute. reflexivity. Qed.

Example load_action_ticket_map_demo :
  load_action_ticket_map demo_rows
  = {[ py "actAlignLeftExecute" :=
         list_to_map [ (py "action", PyStr (py "actAlignLeftExecute"));
                       (py "ticket_id", PyStr (py "T-3"));
                       (py "phase", PyNone) ] ]}.
Proof. vm_compute. reflexivity. Qed.

(** A row matched through an alias, and a row without a match. *)
Example build_action_matrix_alias :
  build_action_matrix (parse_form_sections demo_lines)
    (load_action_ticket_map demo_rows)
  = [ mkActionMatrixRow (py "actAlignLeft") (py "actAlignLeftExecute")
        (py "TfrmLeat") (py "Transforms")
        (PyStr (py "T-3")) (PyStr []) PyNone (py "mapped");
      mkActionMatrixRow (py "actLinePaletteEdit") (py "actLinePalletEdit")
        (py "TfrmLeat") (py "LineTypePalette")
        (PyStr []) (PyStr []) (PyStr []) (py "unmapped") ].
Proof. vm_compute. reflexivity. Qed.

Example build_form_schema_scenario :
  doc_forms (build_form_schema ascii_lower (py "2024-01-01T00:00:00+00:00") demo_forms)
  = [ mkFormEntry (py "TfrmOptions") (py "b.rsrc") 1 3
        [(py "button", 1%nat); (py "checkbox", 2%nat)]
        [(py "general", 2%nat); (py "stitching", 1%nat)]
        [ mkControlRecord (py "chkStitchAutoSave") (py "checkbox") (py "stitching");
          mkControlRecord (py "btnOk") (py "button") (py "general");
          mkControlRecord (py "chkGrid") (py "checkbox") (py "general") ] ].
Proof. vm_compute. reflexivity. Qed.

(** ** Rule tables *)

Section FirstMatch.

Context (test : pystr -> list pystr -> bool) (default : pystr).

Lemma first_match_cons rule rules s :
  first_match test (rule :: rules) default s
  = if test s (fst rule) then snd rule
    else first_match test rules default s.
Proof. unfold first_match; simpl. by destruct (test s (fst rule)). Qed.

(** The rule at position [i] decides when it matches and no rule above
    it does. *)
Lemma first_match_at rules s i rule :
  rules !! i = Some rule ->
  test s (fst rule) = true ->
  (forall j rule', (j < i)%nat -> rules !! j = Some rule' ->
                   test s (fst rule') = false) ->
  first_match test rules default s = snd rule.
Proof.
  revert i. induction rules as [|r rules IH]; intros i Hi Hm Hlt; [done|].
  rewrite first_match_cons. destruct i as [|i]; simpl in Hi.
  - injection Hi as ->. by rewrite Hm.
  - rewrite (Hlt 0%nat r) by (simpl; done || lia).
    apply (IH i); [done..|].
    intros j r' Hj Hr'. apply (Hlt (S j) r'); [lia|done].
Qed.

Lemma first_match_none rules s :
  (forall rule, rule ∈ rules -> test s (fst rule) = false) ->
  first_match test rules default s = default.
Proof.
  induction rules as [|r rules IH]; intros H; [done|].
  rewrite first_match_cons, (H r) by left.
  apply IH. intros r' Hr'. apply H. by right.
Qed.

Lemma first_match_in rules s :
  first_match test rules default s ∈ map snd rules ++ [default].
Proof.
  induction rules as [|r rules IH]; [by left|].
  rewrite first_match_cons. destruct (test s (fst r)); simpl; [left|by right].
Qed.

End FirstMatch.

Ltac rules_refl :=
  rewrite !first_match_cons;
  cbn [fst snd startswith_any contains_any existsb];
  rewrite ?orb_false_r, <- ?orb_assoc; reflexivity.

Lemma classify_cluster_first_match action :
  classify_cluster action
  = first_match startswith_any cluster_rules (py "Other") action.
Proof. unfold classify_cluster, cluster_rules. rules_refl. Qed.

Lemma infer_control_kind_first_match control_id :
  infer_control_kind control_id
  = first_match startswith_any kind_rules (py "other") control_id.
Proof. unfold infer_control_kind, kind_rules. rules_refl. Qed.

Lemma infer_control_domain_first_match lower control_id :
  infer_control_domain lower control_id
  = first_match contains_any domain_rules (py "general") (lower control_id).
Proof. unfold infer_control_domain, domain_rules. rules_refl. Qed.

(** C4: the cluster classifier is a total function into the ten
    categories, it is the first-match reading of the rule table in the
    order Transforms, LineTypePalette, GeometryEdit, SelectionOrdering,
    ProjectLifecycle, ViewportDisplay, HelpLinks, SecretBonus,
    LayerAdvanced, so that the rule at a position decides whenever it
    matches and no rule above it does; an action matching no rule is
    Other; and [actShowHideGrid], which satisfies the prefix lists of
    both ViewportDisplay and HelpLinks, is ViewportDisplay. *)
Theorem classify_cluster_total_first_match :
  map snd cluster_rules ++ [py "Other"] = cluster_categories
  /\ (forall action, classify_cluster action ∈ cluster_categories)
  /\ (forall action,
        classify_cluster action
        = first_match startswith_any cluster_rules (py "Other") action)
  /\ (forall action i prefixes category,
        cluster_rules !! i = Some (prefixes, category) ->
        startswith_any action prefixes = true ->
        (forall j prefixes' category', (j < i)%nat ->
           cluster_rules !! j = Some (prefixes', category') ->
           startswith_any action prefixes' = false) ->
        classify_cluster action = category)
  /\ (forall action,
        (forall prefixes category,
           (prefixes, category) ∈ cluster_rules ->
           startswith_any action prefixes = false) ->
        classify_cluster action = py "Other")
  /\ (startswith_any (py "actShowHideGrid")
        [py "actShowHideGrid"; py "actShowHideScale";
         py "actShowHideDimensionLines"; py "actShowHidePrintAreas";
         py "actSetGridBackground"; py "actResetView"] = true
      /\ startswith_any (py "actShowHideGrid")
           [py "actShow"; py "actView"; py "actVisit"] = true
      /\ classify_cluster (py "actShowHideGrid") = py "ViewportDisplay").
Proof.
  split; [reflexivity|]. split.
  { intros a. rewrite classify_cluster_first_match.
    change cluster_categories with (map snd cluster_rules ++ [py "Other"]).
    apply first_match_in. }
  split; [apply classify_cluster_first_match|]. split.
  { intros a i ps c Hi Hm Hlt. rewrite classify_cluster_first_match.
    apply (first_match_at _ _ _ _ i (ps, c)); [done..|].
    intros j [ps' c'] Hj Hr. by apply (Hlt j ps' c'). }
  split; [|by vm_compute].
  intros a H. rewrite classify_cluster_first_match.
  apply first_match_none. intros [ps c] Hin. by apply (H ps c).
Qed.

Lemma ascii_lower_spec : lower_spec ascii_lower.
Proof. intros s _. reflexivity. Qed.

Ltac is_ascii_lit :=
  unfold is_ascii, py; cbn [list_ascii_of_string map];
  repeat (apply Forall_cons_2; [reflexivity|]); apply Forall_nil_2.

(** C9: the kind and the domain classifier are total functions into
    their closed category sets (with defaults other and general), each
    the first-match reading of its rule table in the fixed order; the
    identifier [chkStitchAutoSave] has kind checkbox and domain
    stitching, its lowered text holding keywords of both the stitching
    and the options group, of which stitching is tested first.  [lower]
    is the runtime's [str.lower]. *)
Theorem control_classifiers_total_first_match
  (lower : pystr -> pystr) (Hlower : lower_spec lower) :
  (map snd kind_rules ++ [py "other"] = kind_categories
   /\ map snd domain_rules ++ [py "general"] = domain_categories)
  /\ (forall control_id, infer_control_kind control_id ∈ kind_categories)
  /\ (forall control_id,
        infer_control_domain lower control_id ∈ domain_categories)
  /\ (forall control_id,
        infer_control_kind control_id
        = first_match startswith_any kind_rules (py "other") control_id)
  /\ (forall control_id,
        infer_control_domain lower control_id
        = first_match contains_any domain_rules (py "general")
            (lower control_id))
  /\ infer_control_kind (py "chkStitchAutoSave") = py "checkbox"
  /\ infer_control_domain lower (py "chkStitchAutoSave") = py "stitching"
  /\ contains_any (lower (py "chkStitchAutoSave"))
       [py "stitch"; py "prick"; py "thread"] = true
  /\ contains_any (lower (py "chkStitchAutoSave"))
       [py "auto"; py "pitch"; py "zoom"; py "save"; py "option"] = true.
Proof.
  assert (Hl : lower (py "chkStitchAutoSave") = py "chkstitchautosave").
  { rewrite Hlower by is_ascii_lit. reflexivity. }
  split; [split; reflexivity|]. split.
  { intros c. rewrite infer_control_kind_first_match.
    change kind_categories with (map snd kind_rules ++ [py "other"]).
    apply first_match_in. }
  split.
  { intros c. rewrite infer_control_domain_first_match.
    change domain_categories with (map snd domain_rules ++ [py "general"]).
    apply first_match_in. }
  split; [apply infer_control_kind_first_match|].
  split; [apply infer_control_domain_first_match|].
  split; [reflexivity|].
  unfold infer_control_domain. rewrite Hl. repeat split; reflexivity.
Qed.

Lemma control_classifiers_total_first_match_witness :
  lower_spec ascii_lower
  /\ infer_control_kind (py "chkStitchAutoSave") = py "checkbox"
  /\ infer_control_domain ascii_lower (py "chkStitchAutoSave") = py "stitching".
Proof.
  split; [intros s _; reflexivity|].
  pose proof (control_classifiers_total_first_match ascii_lower
                (fun s _ => eq_refl)) as H.
  split; [apply H | apply H].
Defined.

(** ** Strings *)

Lemma startswith_prefix s p : startswith s p = true <-> exists t, s = p ++ t.
Proof.
  revert s. induction p as [|a p IH]; intros s.
  - destruct s; simpl; split; eauto.
  - destruct s as [|c s]; simpl.
    + split; [done|]. intros [t Ht]. discriminate.
    + rewrite andb_true_iff, N.eqb_eq, IH. split.
      * intros [-> [t ->]]. eauto.
      * intros [t Ht]. injection Ht as -> ->. eauto.
Qed.

Lemma startswith_cons c s a p :
  startswith (c :: s) (a :: p) = (c =? a) && startswith s p.
Proof. done. Qed.

Lemma startswith_app p t : startswith (p ++ t) p = true.
Proof. apply startswith_prefix. eauto. Qed.

Lemma endswith_suffix s p : endswith s p = true <-> exists t, s = t ++ p.
Proof.
  unfold endswith. rewrite startswith_prefix. split.
  - intros [t Ht]. exists (rev t).
    rewrite <- (rev_involutive s), Ht, rev_app_distr, rev_involutive. done.
  - intros [t ->]. exists (rev t). by rewrite rev_app_distr.
Qed.

Lemma contains_occurs s p :
  contains s p = true <-> exists a b, s = a ++ p ++ b.
Proof.
  induction s as [|c s IH]; cbn [contains].
  - rewrite orb_false_r, startswith_prefix. split.
    + intros [t Ht]. by exists [], t.
    + intros [a [b Hab]]. destruct a; [eauto|discriminate].
  - rewrite orb_true_iff, startswith_prefix, IH. split.
    + intros [[t Ht]|[a [b Hab]]].
      * by exists [], t.
      * exists (c :: a), b. by rewrite Hab.
    + intros [[|c' a] [b Hab]].
      * left. eauto.
      * right. injection Hab as -> ->. eauto.
Qed.

(** A string without an occurrence has none in any of its slices. *)
Lemma contains_slice a s b p :
  contains (a ++ s ++ b) p = false -> contains s p = false.
Proof.
  intros H. apply not_true_is_false. intros Hs. apply contains_occurs in Hs.
  destruct Hs as [a' [b' ->]].
  assert (contains (a ++ (a' ++ p ++ b') ++ b) p = true); [|congruence].
  apply contains_occurs. exists (a ++ a'), (b' ++ b).
  by rewrite <- !app_assoc.
Qed.

Lemma lstrip_by_split f s : exists a, s = a ++ lstrip_by f s.
Proof.
  induction s as [|c s [a IH]]; simpl; [by exists []|].
  destruct (f c); [|by exists []]. exists (c :: a). simpl. congruence.
Qed.

Lemma lstrip_by_length f s : (length (lstrip_by f s) <= length s)%nat.
Proof.
  destruct (lstrip_by_split f s) as [a Ha].
  rewrite Ha at 2. rewrite length_app. lia.
Qed.

Lemma rstrip_by_split f s : exists b, s = rstrip_by f s ++ b.
Proof.
  unfold rstrip_by. destruct (lstrip_by_split f (rev s)) as [a Ha].
  exists (rev a). rewrite <- rev_app_distr, <- Ha. by rewrite rev_involutive.
Qed.

Lemma strip_split s : exists a b, s = a ++ strip s ++ b.
Proof.
  unfold strip, rstrip, lstrip.
  destruct (lstrip_by_split is_space s) as [a Ha].
  destruct (rstrip_by_split is_space (lstrip_by is_space s)) as [b Hb].
  exists a, b. by rewrite <- Hb.
Qed.

Section Replace.

Context (old new : pystr) (Hold : old <> []).

Lemma replace_from_skip k s :
  replace_from old new k s = replace_from old new 0 (drop k s).
Proof.
  revert k. induction s as [|c s IH]; intros [|k]; try done.
  simpl. apply IH.
Qed.

Lemma replace_nil : replace [] old new = [].
Proof. done. Qed.

Lemma replace_hit s :
  startswith s old = true ->
  replace s old new = new ++ replace (drop (length old) s) old new.
Proof.
  intros Hs. destruct s as [|c s].
  - destruct old; [done|discriminate].
  - unfold replace. cbn [replace_from]. rewrite Hs, replace_from_skip.
    destruct old; [done|]. simpl. by rewrite Nat.sub_0_r.
Qed.

Lemma replace_miss c s :
  startswith (c :: s) old = false ->
  replace (c :: s) old new = c :: replace s old new.
Proof. intros Hs. unfold replace. cbn [replace_from]. by rewrite Hs. Qed.

(** Where the text to replace does not occur, nothing changes. *)
Lemma replace_absent s : contains s old = false -> replace s old new = s.
Proof.
  induction s as [|c s IH]; [done|].
  cbn [contains]. rewrite orb_false_iff. intros [Hs Hc].
  rewrite replace_miss, IH; done.
Qed.

End Replace.

(** *** The palette substitution *)

Lemma LinePallet_nonempty : LinePallet <> [].
Proof. done. Qed.

(** Text without the letter L at the head of the result was copied from
    the argument: every replacement starts with an L. *)
Lemma replace_palette_head w s :
  76 ∉ w ->
  startswith (replace s LinePallet LinePalette) w = true ->
  startswith s w = true.
Proof.
  revert s. induction w as [|a w IH]; intros s Hw Hs.
  { by destruct s. }
  apply not_elem_of_cons in Hw as [Ha Hw].
  destruct (startswith s LinePallet) eqn:Hp.
  - rewrite (replace_hit _ _ LinePallet_nonempty) in Hs by done.
    change LinePalette with (76 :: py "inePalette") in Hs.
    cbn [app startswith] in Hs. apply andb_true_iff in Hs as [Hs _].
    apply N.eqb_eq in Hs. congruence.
  - destruct s as [|c s]; [done|].
    rewrite replace_miss in Hs by done.
    cbn [startswith] in Hs |- *. apply andb_true_iff in Hs as [-> Hs].
    by rewrite (IH s).
Qed.

(** The result of the substitution holds no misspelt occurrence. *)
Lemma replace_palette_clean s :
  contains (replace s LinePallet LinePalette) LinePallet = false.
Proof.
  remember (length s) as n eqn:Hn.
  revert s Hn. induction (lt_wf n) as [n _ IH]; intros s ->.
  destruct (startswith s LinePallet) eqn:Hp.
  - rewrite (replace_hit _ _ LinePallet_nonempty) by done.
    pose proof (IH (length (drop (length LinePallet) s))) as IH'.
    assert (Hlen : (length (drop (length LinePallet) s) < length s)%nat).
    { apply startswith_prefix in Hp as [t ->].
      rewrite length_drop, length_app. change (length LinePallet) with 10%nat. lia. }
    specialize (IH' Hlen _ eq_refl).
    revert IH'. generalize (replace (drop (length LinePallet) s) LinePallet LinePalette).
    intros r Hr. vm_compute LinePalette. vm_compute LinePallet in *.
    cbn [app contains startswith N.eqb Pos.eqb andb orb]. exact Hr.
  - destruct s as [|c s]; [done|].
    rewrite replace_miss by done. cbn [contains].
    rewrite (IH (length s)) by (simpl; lia || done).
    rewrite orb_false_r. apply not_true_is_false. intros Hs.
    assert (Hc : c = 76).
    { revert Hs. vm_compute LinePallet. simpl.
      intros H. apply andb_true_iff in H as [H _]. by apply N.eqb_eq in H. }
    subst c.
    assert (Ht : startswith s (py "inePallet") = true).
    { apply replace_palette_head.
      - vm_compute. intros H. repeat (apply elem_of_cons in H as [H|H]; [done|]).
        by apply elem_of_nil in H.
      - by rewrite (startswith_cons 76 _ 76 (py "inePallet")), N.eqb_refl in Hs. }
    change (startswith (76 :: s) (76 :: py "inePallet") = false) in Hp.
    by rewrite startswith_cons, N.eqb_refl, Ht in Hp.
Qed.

Lemma replace_palette_idempotent s :
  replace (replace s LinePallet LinePalette) LinePallet LinePalette
  = replace s LinePallet LinePalette.
Proof. apply replace_absent, replace_palette_clean. Qed.

(** ** The action canonicaliser *)

(** The text left after trimming and removing the suffix. *)
Lemma canonicalize_action_unfold action :
  canonicalize_action action
  = replace (if endswith (strip action) (py "Execute")
             then take (length (strip action) - 7) (strip action)
             else strip action) LinePallet LinePalette.
Proof. reflexivity. Qed.

Lemma canonicalize_action_clean action :
  contains (canonicalize_action action) LinePallet = false.
Proof. rewrite canonicalize_action_unfold. apply replace_palette_clean. Qed.

(** On a text without the misspelling only trimming and the removal of
    the suffix act. *)
Lemma canonicalize_action_absent c :
  contains c LinePallet = false ->
  canonicalize_action c
  = if endswith (strip c) (py "Execute")
    then take (length (strip c) - 7) (strip c)
    else strip c.
Proof.
  intros Hc. rewrite canonicalize_action_unfold.
  apply replace_absent.
  destruct (strip_split c) as [a [b Hab]].
  destruct (endswith (strip c) (py "Execute")).
  - apply (contains_slice a _ (drop (length (strip c) - 7) (strip c) ++ b)).
    by rewrite (app_assoc (take _ _)), take_drop, <- Hab.
  - apply (contains_slice a _ b). by rewrite <- Hab.
Qed.

Lemma strip_length s : (length (strip s) <= length s)%nat.
Proof.
  destruct (strip_split s) as [a [b Hab]].
  rewrite Hab at 2. rewrite !length_app. lia.
Qed.

Lemma endswith_length s p : endswith s p = true -> (length p <= length s)%nat.
Proof.
  intros H. apply endswith_suffix in H as [t ->]. rewrite length_app. lia.
Qed.

(** C1 (as amended): canonicalising a canonical text again changes
    nothing exactly when that text has no white space around it and
    does not end in Execute. *)
Theorem canonicalize_action_idempotent_iff (s : pystr) :
  canonicalize_action (canonicalize_action s) = canonicalize_action s
  <-> strip (canonicalize_action s) = canonicalize_action s
      /\ endswith (canonicalize_action s) (py "Execute") = false.
Proof.
  pose proof (canonicalize_action_clean s) as Hc.
  revert Hc. generalize (canonicalize_action s). intros c Hc.
  rewrite (canonicalize_action_absent c Hc). split.
  - intros H. pose proof (strip_length c) as Hlen.
    destruct (endswith (strip c) (py "Execute")) eqn:He.
    + apply endswith_length in He. change (length (py "Execute")) with 7%nat in He.
      apply (f_equal length) in H. rewrite length_take in H. lia.
    + split; [done|]. by rewrite H in He.
  - intros [Hs He]. by rewrite Hs, He.
Qed.

(** C1 as stated fails: a doubled suffix loses one copy at each pass. *)
Lemma canonicalize_action_not_idempotent :
  ~ (forall s,
       canonicalize_action (canonicalize_action s) = canonicalize_action s).
Proof.
  intros H. specialize (H (py "actSaveExecuteExecute")).
  vm_compute in H. discriminate.
Qed.

(** C2 (as amended): when the trimmed text is [p] followed by Execute,
    the result is [p] after the palette substitution, and it is [p]
    itself when [p] holds no misspelt LinePallet. *)
Theorem canonicalize_action_strips_suffix (s p : pystr) :
  strip s = p ++ py "Execute" ->
  canonicalize_action s = replace p (py "LinePallet") (py "LinePalette")
  /\ (contains p (py "LinePallet") = false -> canonicalize_action s = p).
Proof.
  intros Hs.
  assert (H : canonicalize_action s = replace p LinePallet LinePalette).
  { rewrite canonicalize_action_unfold, Hs.
    replace (endswith (p ++ py "Execute") (py "Execute")) with true
      by (symmetry; apply endswith_suffix; eauto).
    rewrite length_app. change (length (py "Execute")) with 7%nat.
    by rewrite Nat.add_sub, take_app_length. }
  split; [exact H|].
  intros Hp. rewrite H. by apply replace_absent.
Qed.

Lemma canonicalize_action_strips_suffix_witness :
  strip (py " actSaveProjectExecute ") = py "actSaveProject" ++ py "Execute"
  /\ canonicalize_action (py " actSaveProjectExecute ") = py "actSaveProject".
Proof.
  split; [reflexivity|].
  apply (canonicalize_action_strips_suffix
           (py " actSaveProjectExecute ") (py "actSaveProject"));
    reflexivity.
Defined.

(** C2 as stated fails: the prefix left of the suffix is rewritten where
    it holds the misspelling. *)
Lemma canonicalize_action_suffix_changes_prefix :
  ~ (forall s p, strip s = p ++ py "Execute" -> canonicalize_action s = p).
Proof.
  intros H.
  specialize (H (py "actLinePalletExecute") (py "actLinePallet") eq_refl).
  vm_compute in H. discriminate.
Qed.

(** ** The ticket map *)

Lemma load_action_ticket_map_snoc rows row :
  load_action_ticket_map (rows ++ [row])
  = match row_key row with
    | [] => load_action_ticket_map rows
    | _ => <[row_key row := row]> (load_action_ticket_map rows)
    end.
Proof. unfold load_action_ticket_map. by rewrite foldl_snoc. Qed.

(** C8: the mapping holds, under every non-empty key, the last row
    whose trimmed action column is that key, and nothing under the
    empty key: rows with a blank action are skipped and later rows
    overwrite earlier ones. *)
Theorem load_action_ticket_map_last (rows : list csvrow) (key : pystr) :
  load_action_ticket_map rows !! key
  = if decide (key = [])
    then None
    else last (filter (fun row => row_key row = key) rows).
Proof.
  induction rows as [|row rows IH] using rev_ind.
  { by destruct (decide (key = [])). }
  rewrite load_action_ticket_map_snoc, filter_app, filter_cons, filter_nil.
  destruct (row_key row) as [|c k] eqn:Hk.
  - rewrite IH. destruct (decide (key = [])) as [->|Hne]; [done|].
    rewrite decide_False by congruence. by rewrite app_nil_r.
  - destruct (decide (c :: k = key)) as [<-|Hne].
    + rewrite lookup_insert_eq, decide_False by done. by rewrite last_snoc.
    + rewrite lookup_insert_ne, IH by done. by rewrite app_nil_r.
Qed.

(** ** The section parser *)

Lemma lstrip_by_head f s c t : lstrip_by f s = c :: t -> f c = false.
Proof.
  induction s as [|a s IH]; [done|]. simpl.
  destruct (f a) eqn:Ha; [done|]. by intros [= <- _].
Qed.

Lemma lstrip_by_nil f s :
  lstrip_by f s = [] -> Forall (fun c => f c = true) s.
Proof.
  induction s as [|a s IH]; [constructor|]. simpl.
  destruct (f a) eqn:Ha; [|done]. intros H. constructor; auto.
Qed.

Lemma strip_nil s : strip s = [] -> Forall (fun c => is_space c = true) s.
Proof.
  unfold strip, rstrip, rstrip_by, lstrip. intros H.
  apply (f_equal (@rev N)) in H. rewrite rev_involutive in H. simpl in H.
  apply lstrip_by_nil, Forall_rev in H. rewrite rev_involutive in H.
  destruct (lstrip_by is_space s) as [|c t] eqn:Hl.
  - by apply lstrip_by_nil.
  - apply lstrip_by_head in Hl. apply Forall_cons in H as [H _]. congruence.
Qed.

(** A blank line starts with no character that is not white space. *)
Lemma blank_startswith line c p :
  is_blank line = true -> is_space c = false ->
  startswith line (c :: p) = false.
Proof.
  unfold is_blank. destruct (strip line) eqn:Hs; [|done]. intros _ Hc.
  apply strip_nil in Hs. destruct Hs as [|a s Ha _]; [done|].
  rewrite startswith_cons. destruct (N.eqb_spec a c); [congruence|done].
Qed.

Lemma parse_line_blank st raw_line :
  blank_line raw_line -> parse_line st raw_line = st.
Proof.
  unfold blank_line, parse_line, HeaderPattern.match_, HeaderPattern.lit.
  intros Hb.
  change (py "===") with (61 :: py "==").
  change (py "Actions (") with (65 :: py "ctions (").
  change (py "Controls (") with (67 :: py "ontrols (").
  rewrite !(blank_startswith _ _ _ Hb) by done. rewrite Hb.
  by destruct (ps_current st).
Qed.

Lemma header_of_blank raw_line : blank_line raw_line -> header_of raw_line = None.
Proof.
  unfold blank_line, header_of, HeaderPattern.match_, HeaderPattern.lit.
  intros Hb. change (py "===") with (61 :: py "==").
  by rewrite (blank_startswith _ _ _ Hb).
Qed.

Lemma parse_line_header st raw_line id :
  header_of raw_line = Some id ->
  parse_line st raw_line
  = mkParseState (finish st) (Some (mkFormSection (fst id) (snd id) [] []))
      ModeNone.
Proof.
  unfold header_of, parse_line.
  destruct (HeaderPattern.match_ (rstrip_nl raw_line)) as [[g1 g2]|]; [|done].
  by intros [= <-].
Qed.

(** A line that is no header leaves the finished sections and the
    identity of the one in progress as they are. *)
Lemma parse_line_other st raw_line :
  header_of raw_line = None ->
  ps_forms (parse_line st raw_line) = ps_forms st
  /\ section_id <$> ps_current (parse_line st raw_line)
     = section_id <$> ps_current st.
Proof.
  unfold header_of, parse_line.
  destruct (HeaderPattern.match_ (rstrip_nl raw_line)) as [[g1 g2]|]; [done|].
  intros _. destruct (ps_current st) as [cur|] eqn:Hcur; [|by rewrite Hcur].
  repeat case_match; simpl; rewrite ?Hcur; done.
Qed.

Lemma parse_line_idle raw_line :
  header_of raw_line = None -> parse_line init_state raw_line = init_state.
Proof.
  unfold header_of, parse_line.
  by destruct (HeaderPattern.match_ (rstrip_nl raw_line)) as [[g1 g2]|].
Qed.

Lemma finish_prepend done st : finish (prepend done st) = done ++ finish st.
Proof.
  unfold finish, prepend; simpl.
  destruct (ps_current st); by rewrite ?app_assoc.
Qed.

Lemma parse_line_prepend done st raw_line :
  parse_line (prepend done st) raw_line = prepend done (parse_line st raw_line).
Proof.
  unfold parse_line. destruct (HeaderPattern.match_ _) as [[g1 g2]|].
  - unfold prepend; simpl. destruct (ps_current st); by rewrite ?app_assoc.
  - unfold prepend at 1; simpl. destruct (ps_current st) as [cur|]; [|done].
    repeat case_match; done.
Qed.

Lemma foldl_parse_line_prepend done st lines :
  foldl parse_line (prepend done st) lines
  = prepend done (foldl parse_line st lines).
Proof.
  revert st. induction lines as [|l lines IH]; intros st; [done|].
  simpl. by rewrite parse_line_prepend, IH.
Qed.

Lemma finish_ids st :
  section_id <$> finish st
  = (section_id <$> ps_forms st)
    ++ from_option (fun id => [id]) [] (section_id <$> ps_current st).
Proof.
  unfold finish. destruct (ps_current st); simpl.
  - by rewrite fmap_app.
  - by rewrite app_nil_r.
Qed.

Lemma foldl_parse_line_ids st lines :
  section_id <$> finish (foldl parse_line st lines)
  = (section_id <$> finish st) ++ omap header_of lines.
Proof.
  revert st. induction lines as [|l lines IH]; intros st.
  { simpl. by rewrite app_nil_r. }
  simpl. rewrite IH. destruct (header_of l) as [id|] eqn:Hl.
  - rewrite (parse_line_header st l id Hl).
    rewrite (finish_ids (mkParseState _ _ _)). simpl.
    destruct id. by rewrite <- app_assoc.
  - destruct (parse_line_other st l Hl) as [Hf Hc].
    by rewrite !finish_ids, Hf, Hc.
Qed.

Lemma foldl_parse_line_idle pre :
  Forall (fun l => header_of l = None) pre ->
  foldl parse_line init_state pre = init_state.
Proof.
  induction 1 as [|l pre Hl _ IH]; [done|].
  simpl. by rewrite parse_line_idle.
Qed.

Lemma foldl_parse_line_filter st lines :
  foldl parse_line st (filter (fun l => ~ blank_line l) lines)
  = foldl parse_line st lines.
Proof.
  revert st. induction lines as [|l lines IH]; intros st; [done|].
  rewrite filter_cons. destruct (decide (~ blank_line l)) as [Hl|Hl]; simpl.
  - apply IH.
  - apply dec_stable in Hl. by rewrite (parse_line_blank st l Hl).
Qed.

(** C7: the parser gives one section per header line, in file order
    and with the identity the header states; lines before the first
    header and blank lines are ignored; a header line closes the
    section in progress, which is kept, and opens a new one; and the
    section in progress at the end of the input is kept. *)
Theorem parse_form_sections_per_header :
  (forall lines,
     section_id <$> parse_form_sections lines = omap header_of lines)
  /\ (forall lines,
        length (parse_form_sections lines)
        = length (filter (fun l => is_Some (header_of l)) lines))
  /\ (forall pre rest,
        Forall (fun l => header_of l = None) pre ->
        parse_form_sections (pre ++ rest) = parse_form_sections rest)
  /\ (forall lines,
        parse_form_sections (filter (fun l => ~ blank_line l) lines)
        = parse_form_sections lines)
  /\ (forall pre header body,
        is_Some (header_of header) ->
        parse_form_sections (pre ++ header :: body)
        = parse_form_sections pre ++ parse_form_sections (header :: body))
  /\ (forall pre header id,
        header_of header = Some id ->
        parse_form_sections (pre ++ [header])
        = parse_form_sections pre ++ [mkFormSection (fst id) (snd id) [] []]).
Proof.
  assert (Hids : forall lines,
            section_id <$> parse_form_sections lines = omap header_of lines).
  { intros lines. unfold parse_form_sections.
    by rewrite foldl_parse_line_ids. }
  assert (Hsplit : forall pre header body,
            is_Some (header_of header) ->
            parse_form_sections (pre ++ header :: body)
            = parse_form_sections pre ++ parse_form_sections (header :: body)).
  { intros pre header body [id Hid]. unfold parse_form_sections.
    rewrite foldl_app. cbn [foldl].
    set (st := foldl parse_line (mkParseState [] None ModeNone) pre).
    rewrite (parse_line_header st header id Hid).
    rewrite (parse_line_header (mkParseState [] None ModeNone) header id Hid).
    change (finish (mkParseState [] None ModeNone)) with (@nil FormSection).
    rewrite <- finish_prepend, <- foldl_parse_line_prepend.
    unfold prepend; simpl. by rewrite app_nil_r. }
  split; [exact Hids|]. split.
  { intros lines. rewrite <- (length_fmap section_id), Hids.
    induction lines as [|l lines IH]; [done|].
    rewrite filter_cons. simpl. destruct (header_of l) eqn:Hl.
    - rewrite decide_True by eauto. simpl. f_equal. exact IH.
    - rewrite decide_False by (by intros [? ?]). exact IH. }
  split.
  { intros pre rest Hpre. unfold parse_form_sections.
    rewrite foldl_app.
    by rewrite (foldl_parse_line_idle pre Hpre : foldl _ (mkParseState [] None ModeNone) _ = _). }
  split.
  { intros lines. unfold parse_form_sections.
    by rewrite foldl_parse_line_filter. }
  split; [exact Hsplit|].
  intros pre header id Hid. rewrite Hsplit by eauto. f_equal.
  unfold parse_form_sections. cbn [foldl].
  by rewrite (parse_line_header _ header id Hid).
Qed.

(** ** The order of strings and [sorted] *)

Lemma str_leb_cons a s b t :
  str_leb (a :: s) (b :: t) = (a <? b) || ((a =? b) && str_leb s t).
Proof. done. Qed.

Lemma str_leb_cons_true a s b t :
  str_leb (a :: s) (b :: t) = true <-> a < b \/ (a = b /\ str_leb s t = true).
Proof.
  rewrite str_leb_cons, orb_true_iff, andb_true_iff, N.ltb_lt, N.eqb_eq. done.
Qed.

#[global] Instance str_le_dec s t : Decision (str_le s t).
Proof. unfold str_le. apply _. Defined.

#[global] Instance str_le_refl : Reflexive str_le.
Proof.
  intros s. unfold str_le. induction s as [|a s IH]; [done|].
  apply str_leb_cons_true. auto.
Qed.

#[global] Instance str_le_trans : Transitive str_le.
Proof.
  unfold str_le. intros s. induction s as [|a s IH]; intros t u Hst Htu.
  { done. }
  destruct t as [|b t]; [done|]. destruct u as [|c u]; [done|].
  apply str_leb_cons_true in Hst, Htu. apply str_leb_cons_true.
  destruct Hst as [?|[-> Hst]], Htu as [?|[-> Htu]];
    [left; lia | left; lia | left; lia | right; split; [done|by eapply IH]].
Qed.

#[global] Instance str_le_antisym : AntiSymm (=) str_le.
Proof.
  unfold str_le. intros s. induction s as [|a s IH]; intros t Hst Hts.
  { by destruct t. }
  destruct t as [|b t]; [done|].
  apply str_leb_cons_true in Hst, Hts.
  destruct Hst as [?|[-> Hst]], Hts as [?|[? Hts]]; try lia.
  f_equal. by apply IH.
Qed.

#[global] Instance str_le_total : Total str_le.
Proof.
  unfold str_le. intros s. induction s as [|a s IH]; intros t.
  { by left. }
  destruct t as [|b t]; [by right|].
  rewrite !str_leb_cons_true.
  destruct (N.lt_trichotomy a b) as [?|[->|?]]; [by left; left| |by right; left].
  destruct (IH t); [left|right]; right; done.
Qed.

Section SortBy.

Context {A : Type} (key : A -> pystr).

Local Abbreviation key_le := (key_le key).

Lemma insert_by_perm x l : insert_by key x l ≡ₚ x :: l.
Proof.
  induction l as [|y l IH]; [done|]. simpl.
  destruct (str_leb (key x) (key y)); [done|].
  by rewrite IH, Permutation_swap.
Qed.

Lemma sort_by_perm l : sort_by key l ≡ₚ l.
Proof.
  induction l as [|x l IH]; [done|]. simpl.
  by rewrite insert_by_perm, IH.
Qed.

Lemma insert_by_sorted x l :
  StronglySorted key_le l -> StronglySorted key_le (insert_by key x l).
Proof.
  induction 1 as [|y l Hl IH Hy]; simpl.
  { by repeat constructor. }
  destruct (str_leb (key x) (key y)) eqn:Hxy.
  - constructor; [by constructor|]. constructor; [done|].
    eapply Forall_impl; [exact Hy|]. intros z Hz.
    unfold key_le in *. by etrans.
  - constructor; [done|]. rewrite insert_by_perm. constructor; [|done].
    unfold key_le. destruct (total str_le (key x) (key y)); [congruence|done].
Qed.

Lemma sort_by_sorted l : StronglySorted key_le (sort_by key l).
Proof.
  induction l as [|x l IH]; [constructor|]. by apply insert_by_sorted.
Qed.

End SortBy.

Lemma py_sorted_perm l : py_sorted l ≡ₚ l.
Proof. apply sort_by_perm. Qed.

(** Sorting a list without duplicates gives a strictly ascending list. *)
Lemma py_sorted_strict l : NoDup l -> StronglySorted str_lt (py_sorted l).
Proof.
  intros Hnd. rewrite <- py_sorted_perm in Hnd.
  pose proof (sort_by_sorted id l) as Hs. fold py_sorted in Hs.
  induction Hs as [|x k Hk IH Hx]; [constructor|].
  apply NoDup_cons in Hnd as [Hx' Hnd]. constructor; [by apply IH|].
  apply Forall_forall. intros y Hy. split.
  - by apply (proj1 (Forall_forall _ _) Hx).
  - intros ->. done.
Qed.

Lemma str_lt_sorted_NoDup l : StronglySorted str_lt l -> NoDup l.
Proof.
  induction 1 as [|x l _ IH Hx]; constructor; [|done].
  intros Hin. apply (proj1 (Forall_forall _ _) Hx) in Hin as [_ Hne]. done.
Qed.

(** ** The action matrix *)

Lemma add_action_skip name by_action raw_action :
  ~ is_action raw_action -> add_action name by_action raw_action = by_action.
Proof.
  unfold is_action, add_action. intros H.
  by destruct (startswith (canonicalize_action raw_action) (py "act")).
Qed.

Lemma add_action_dom name by_action raw_action c :
  c ∈ dom (add_action name by_action raw_action)
  <-> c ∈ dom by_action
      \/ (canonicalize_action raw_action = c /\ is_action raw_action).
Proof.
  unfold is_action, add_action.
  destruct (startswith (canonicalize_action raw_action) (py "act")).
  - rewrite dom_insert_L, elem_of_union, elem_of_singleton. split.
    + intros [->|?]; auto.
    + intros [?|[? _]]; auto.
  - split; [auto|]. by intros [?|[_ ?]].
Qed.

Lemma foldl_add_action_filter name by_action raw_actions :
  foldl (add_action name) by_action (filter is_action raw_actions)
  = foldl (add_action name) by_action raw_actions.
Proof.
  revert by_action.
  induction raw_actions as [|raw l IH]; intros by_action; [done|].
  rewrite filter_cons. destruct (decide (is_action raw)) as [H|H]; simpl.
  - apply IH.
  - by rewrite add_action_skip.
Qed.

Lemma foldl_add_action_dom name by_action raw_actions c :
  c ∈ dom (foldl (add_action name) by_action raw_actions)
  <-> c ∈ dom by_action
      \/ exists raw, raw ∈ raw_actions
                     /\ canonicalize_action raw = c /\ is_action raw.
Proof.
  revert by_action.
  induction raw_actions as [|raw l IH]; intros by_action; simpl.
  { split; [auto|]. intros [?|[raw [Hraw _]]]; [done|]. by apply elem_of_nil in Hraw. }
  rewrite IH, add_action_dom. split.
  - intros [[?|[? ?]]|[raw' [? ?]]]; [by left| |].
    + right. exists raw. split; [left|done].
    + right. exists raw'. split; [by right|done].
  - intros [?|[raw' [Hin ?]]]; [by left; left|].
    apply elem_of_cons in Hin as [->|Hin]; [left; by right|].
    right. by exists raw'.
Qed.

Lemma add_form_skip by_action f :
  form_name f ∉ source_forms -> add_form by_action f = by_action.
Proof. intros H. unfold add_form. by rewrite decide_False. Qed.

Lemma add_form_prune by_action f :
  form_name f ∈ source_forms ->
  add_form by_action (prune_form f) = add_form by_action f.
Proof.
  intros H. unfold add_form, prune_form; simpl.
  rewrite !decide_True by done. apply foldl_add_action_filter.
Qed.

Lemma foldl_add_form_prune by_action forms :
  foldl add_form by_action (prune forms) = foldl add_form by_action forms.
Proof.
  revert by_action. unfold prune.
  induction forms as [|f forms IH]; intros by_action; [done|].
  rewrite filter_cons.
  destruct (decide (form_name f ∈ source_forms)) as [H|H]; simpl.
  - by rewrite add_form_prune, IH.
  - by rewrite add_form_skip, IH.
Qed.

Lemma collect_actions_prune forms :
  collect_actions (prune forms) = collect_actions forms.
Proof. apply foldl_add_form_prune. Qed.

Lemma foldl_add_form_dom by_action forms c :
  c ∈ dom (foldl add_form by_action forms)
  <-> c ∈ dom by_action \/ sourced forms c.
Proof.
  revert by_action. induction forms as [|f forms IH]; intros by_action; simpl.
  { split; [auto|]. intros [?|[f [raw [Hf _]]]]; [done|].
    by apply elem_of_nil in Hf. }
  rewrite IH. unfold add_form at 1.
  destruct (decide (form_name f ∈ source_forms)) as [Hf|Hf].
  - rewrite foldl_add_action_dom. split.
    + intros [[?|[raw [? [? ?]]]]|[f' [raw [? ?]]]]; [by left| |].
      * right. exists f, raw. split; [left|done].
      * right. exists f', raw. split; [by right|done].
    + intros [?|[f' [raw [Hin [? [? ?]]]]]]; [by left; left|].
      apply elem_of_cons in Hin as [->|Hin].
      * left. right. by exists raw.
      * right. by exists f', raw.
  - split.
    + intros [?|[f' [raw [? ?]]]]; [by left|].
      right. exists f', raw. split; [by right|done].
    + intros [?|[f' [raw [Hin [? ?]]]]]; [by left|].
      apply elem_of_cons in Hin as [->|Hin]; [done|].
      right. by exists f', raw.
Qed.

Lemma collect_actions_dom forms c :
  c ∈ dom (collect_actions forms) <-> sourced forms c.
Proof.
  unfold collect_actions. rewrite foldl_add_form_dom, dom_empty_L.
  split; [|auto]. by intros [?%not_elem_of_empty|?].
Qed.

Lemma build_action_matrix_actions forms ticket_map :
  row_action <$> build_action_matrix forms ticket_map
  = py_sorted (elements (dom (collect_actions forms))).
Proof.
  unfold build_action_matrix. cbv zeta.
  generalize (py_sorted (elements (dom (collect_actions forms)))).
  intros keys. induction keys as [|c keys IH]; [done|].
  cbn [map fmap list_fmap]. f_equal; [|exact IH].
  unfold make_row. by destruct (reconcile _ _ _).
Qed.

Lemma add_action_item name by_action raw_action c :
  add_action name by_action raw_action !!! c
  = if decide (canonicalize_action raw_action = c /\ is_action raw_action)
    then mkActionItem (item_aliases (by_action !!! c) ∪ {[raw_action]})
                      (item_forms (by_action !!! c) ∪ {[name]})
    else by_action !!! c.
Proof.
  unfold is_action, add_action.
  destruct (startswith (canonicalize_action raw_action) (py "act")) eqn:Ha.
  - destruct (decide (canonicalize_action raw_action = c)) as [<-|Hne].
    + rewrite decide_True by done. rewrite lookup_total_insert_eq.
      by rewrite lookup_total_alt.
    + rewrite decide_False by (by intros [? _]).
      by rewrite lookup_total_insert_ne.
  - rewrite decide_False; [done|]. by intros [_ ?].
Qed.

Lemma foldl_add_action_item name by_action raw_actions c :
  let item := foldl (add_action name) by_action raw_actions !!! c in
  let hit := exists raw, raw ∈ raw_actions
                         /\ canonicalize_action raw = c /\ is_action raw in
  (forall raw, raw ∈ item_aliases item
               <-> raw ∈ item_aliases (by_action !!! c)
                   \/ (raw ∈ raw_actions
                       /\ canonicalize_action raw = c /\ is_action raw))
  /\ (forall n, n ∈ item_forms item
                <-> n ∈ item_forms (by_action !!! c) \/ (n = name /\ hit)).
Proof.
  revert by_action.
  induction raw_actions as [|raw' l IH]; intros by_action; cbn zeta.
  { simpl. split; intros x; (split; [auto|]).
    - intros [?|[Hx _]]; [done|]. by apply elem_of_nil in Hx.
    - intros [?|[_ [? [Hx _]]]]; [done|]. by apply elem_of_nil in Hx. }
  simpl. destruct (IH (add_action name by_action raw')) as [IHa IHf].
  rewrite add_action_item in IHa, IHf. split.
  - intros raw. rewrite IHa. setoid_rewrite elem_of_cons.
    destruct (decide _) as [[Hc Hact]|Hn]; simpl.
    + rewrite elem_of_union, elem_of_singleton. split.
      * intros [[?| ->]|[? ?]]; auto.
      * intros [?|[[->|?] ?]]; auto.
    + split.
      * intros [?|[? ?]]; auto.
      * intros [?|[[->|?] ?]]; auto. tauto.
  - intros n. rewrite IHf. setoid_rewrite elem_of_cons.
    destruct (decide _) as [[Hc Hact]|Hn]; simpl.
    + rewrite elem_of_union, elem_of_singleton. split.
      * intros [[?| ->]|[-> [r [? ?]]]]; [by left|right..].
        -- split; [done|]. exists raw'. auto.
        -- split; [done|]. exists r. auto.
      * intros [?|[-> _]]; auto.
    + split.
      * intros [?|[-> [r [? ?]]]]; [by left|right].
        split; [done|]. exists r. auto.
      * intros [?|[-> [r [[->|?] ?]]]]; [by left|tauto|right].
        split; [done|]. by exists r.
Qed.

Lemma foldl_add_form_item by_action forms c :
  let item := foldl add_form by_action forms !!! c in
  (forall raw, raw ∈ item_aliases item
               <-> raw ∈ item_aliases (by_action !!! c)
                   \/ alias_source forms c raw)
  /\ (forall n, n ∈ item_forms item
                <-> n ∈ item_forms (by_action !!! c) \/ form_source forms c n).
Proof.
  revert by_action. induction forms as [|f forms IH]; intros by_action; cbn zeta.
  { simpl. split; intros x; (split; [auto|]).
    - intros [?|[f [Hf _]]]; [done|]. by apply elem_of_nil in Hf.
    - intros [?|[f [r [Hf _]]]]; [done|]. by apply elem_of_nil in Hf. }
  simpl. destruct (IH (add_form by_action f)) as [IHa IHf].
  destruct (decide (form_name f ∈ source_forms)) as [Hf|Hf].
  - assert (Heq : add_form by_action f
                  = foldl (add_action (form_name f)) by_action (actions f)).
    { unfold add_form. by rewrite decide_True. }
    destruct (foldl_add_action_item (form_name f) by_action (actions f) c)
      as [Ha Hn]. split.
    + intros raw. rewrite IHa, Heq, Ha. split.
      * intros [[?|[? [? ?]]]|[f' [? ?]]]; [by left|right..].
        -- exists f. split; [left|done].
        -- exists f'. split; [by right|done].
      * intros [?|[f' [Hin [? [? ?]]]]]; [by left; left|].
        apply elem_of_cons in Hin as [->|Hin]; [left; by right|].
        right. by exists f'.
    + intros n. rewrite IHf, Heq, Hn. split.
      * intros [[?|[-> [r [? ?]]]]|[f' [r [? ?]]]]; [by left|right..].
        -- exists f, r. split; [left|done].
        -- exists f', r. split; [by right|done].
      * intros [?|[f' [r [Hin [? [? [? ?]]]]]]]; [by left; left|].
        apply elem_of_cons in Hin as [->|Hin].
        -- left. right. split; [done|]. by exists r.
        -- right. by exists f', r.
  - rewrite (add_form_skip by_action f Hf) in IHa, IHf. split.
    + intros raw. rewrite (add_form_skip by_action f Hf), IHa. split.
      * intros [?|[f' [? ?]]]; [by left|right].
        exists f'. split; [by right|done].
      * intros [?|[f' [Hin [? ?]]]]; [by left|].
        apply elem_of_cons in Hin as [->|Hin]; [done|]. right. by exists f'.
    + intros n. rewrite (add_form_skip by_action f Hf), IHf. split.
      * intros [?|[f' [r [? ?]]]]; [by left|right].
        exists f', r. split; [by right|done].
      * intros [?|[f' [r [Hin [? ?]]]]]; [by left|].
        apply elem_of_cons in Hin as [->|Hin]; [done|]. right. by exists f', r.
Qed.

Lemma aliases_of_elem forms c raw :
  raw ∈ aliases_of (collect_actions forms) c <-> alias_source forms c raw.
Proof.
  unfold aliases_of. rewrite py_sorted_perm, elem_of_elements.
  destruct (foldl_add_form_item ∅ forms c) as [Ha _].
  unfold collect_actions. rewrite Ha, lookup_total_empty. simpl.
  split; [|auto]. by intros [?%not_elem_of_empty|?].
Qed.

Lemma forms_of_elem forms c name :
  name ∈ forms_of (collect_actions forms) c <-> form_source forms c name.
Proof.
  unfold forms_of. rewrite py_sorted_perm, elem_of_elements.
  destruct (foldl_add_form_item ∅ forms c) as [_ Hf].
  unfold collect_actions. rewrite Hf, lookup_total_empty. simpl.
  split; [|auto]. by intros [?%not_elem_of_empty|?].
Qed.

Lemma build_action_matrix_collect forms forms' ticket_map :
  collect_actions forms = collect_actions forms' ->
  build_action_matrix forms ticket_map = build_action_matrix forms' ticket_map.
Proof. unfold build_action_matrix. by intros ->. Qed.

(** C5: the matrix is read from the allow-listed forms and, in them,
    from the raw actions whose canonical form starts with act only:
    it is the matrix of the pruned input; taking a form outside the
    allow-list away, or a raw action whose canonical form is no action
    identifier, leaves it unchanged; forms outside the allow-list alone
    give no row; and the actions of the rows are exactly the canonical
    forms, starting with act, of the raw actions of allow-listed
    forms. *)
Theorem build_action_matrix_sources :
  (forall forms ticket_map,
     build_action_matrix (prune forms) ticket_map
     = build_action_matrix forms ticket_map)
  /\ (forall pre f post ticket_map,
        form_name f ∉ source_forms ->
        build_action_matrix (pre ++ f :: post) ticket_map
        = build_action_matrix (pre ++ post) ticket_map)
  /\ (forall pre f before raw_action after post ticket_map,
        ~ is_action raw_action ->
        build_action_matrix
          (pre ++ with_actions f (before ++ raw_action :: after) :: post)
          ticket_map
        = build_action_matrix
            (pre ++ with_actions f (before ++ after) :: post) ticket_map)
  /\ (forall forms ticket_map,
        Forall (fun f => form_name f ∉ source_forms) forms ->
        build_action_matrix forms ticket_map = [])
  /\ (forall forms ticket_map c,
        c ∈ row_action <$> build_action_matrix forms ticket_map
        <-> sourced forms c)
  /\ (forall forms ticket_map,
        Forall (fun row => startswith (row_action row) (py "act") = true)
               (build_action_matrix forms ticket_map)).
Proof.
  assert (Hprune : forall forms ticket_map,
            build_action_matrix (prune forms) ticket_map
            = build_action_matrix forms ticket_map).
  { intros. apply build_action_matrix_collect, collect_actions_prune. }
  assert (Hrows : forall forms ticket_map c,
            c ∈ row_action <$> build_action_matrix forms ticket_map
            <-> sourced forms c).
  { intros. by rewrite build_action_matrix_actions, py_sorted_perm,
      elem_of_elements, collect_actions_dom. }
  split; [exact Hprune|]. split.
  { intros pre f post tm Hf. rewrite <- Hprune, <- (Hprune (pre ++ post)).
    f_equal. unfold prune. rewrite !filter_app, filter_cons.
    by rewrite decide_False. }
  split.
  { intros pre f before raw after post tm Hraw.
    rewrite <- Hprune, <- (Hprune (pre ++ _ :: post)).
    f_equal. unfold prune. rewrite !filter_app, !filter_cons. simpl.
    destruct (decide (form_name f ∈ source_forms)); [|done].
    rewrite !fmap_app, !fmap_cons. do 2 f_equal.
    unfold prune_form, with_actions; simpl. f_equal.
    rewrite !filter_app, filter_cons. by rewrite decide_False. }
  split.
  { intros forms tm Hall. rewrite <- Hprune.
    replace (prune forms) with (@nil FormSection); [done|].
    unfold prune. induction Hall as [|f forms Hf _ IH]; [done|].
    rewrite filter_cons, decide_False by done. exact IH. }
  split; [exact Hrows|].
  intros forms tm. apply Forall_forall. intros row Hrow.
  assert (Hc : row_action row ∈ row_action <$> build_action_matrix forms tm).
  { apply list_elem_of_fmap. by exists row. }
  apply Hrows in Hc as [f [raw [_ [_ [_ [<- Hact]]]]]]. exact Hact.
Qed.

Lemma aliases_of_strict by_action c :
  StronglySorted str_lt (aliases_of by_action c).
Proof. apply py_sorted_strict, NoDup_elements. Qed.

Lemma forms_of_strict by_action c :
  StronglySorted str_lt (forms_of by_action c).
Proof. apply py_sorted_strict, NoDup_elements. Qed.

Lemma make_row_lists ticket_map c aliases forms_for_action :
  row_action (make_row ticket_map c aliases forms_for_action) = c
  /\ row_aliases (make_row ticket_map c aliases forms_for_action)
     = join (py ";") aliases
  /\ row_source_forms (make_row ticket_map c aliases forms_for_action)
     = join (py ";") forms_for_action
  /\ row_cluster (make_row ticket_map c aliases forms_for_action)
     = classify_cluster c.
Proof. unfold make_row. by destruct (reconcile _ _ _). Qed.

(** Every row is the row made for its own action. *)
Lemma build_action_matrix_rows forms ticket_map :
  Forall (fun row =>
            row = make_row ticket_map (row_action row)
                    (aliases_of (collect_actions forms) (row_action row))
                    (forms_of (collect_actions forms) (row_action row)))
         (build_action_matrix forms ticket_map).
Proof.
  unfold build_action_matrix. cbv zeta. apply Forall_forall. intros row Hrow.
  apply list_elem_of_fmap in Hrow as [c [-> _]].
  by rewrite (proj1 (make_row_lists _ _ _ _)).
Qed.

(** C6: the rows are strictly ascending in their canonical action and
    their actions are exactly the canonical actions the allow-listed
    forms give, so each canonical action has its row and has it once;
    the aliases and the source forms of a row are the strictly
    ascending lists, joined with semicolons, of the raw actions with
    that canonical form and of the allow-listed forms that hold one,
    whatever the order and the repetitions in the input. *)
Theorem build_action_matrix_sorted
  (forms : list FormSection) (ticket_map : gmap pystr csvrow) :
  StronglySorted str_lt (row_action <$> build_action_matrix forms ticket_map)
  /\ NoDup (row_action <$> build_action_matrix forms ticket_map)
  /\ (forall c,
        c ∈ row_action <$> build_action_matrix forms ticket_map
        <-> sourced forms c)
  /\ Forall (fun row =>
       let aliases := aliases_of (collect_actions forms) (row_action row) in
       let forms_for_action :=
         forms_of (collect_actions forms) (row_action row) in
       row_aliases row = join (py ";") aliases
       /\ row_source_forms row = join (py ";") forms_for_action
       /\ StronglySorted str_lt aliases /\ NoDup aliases
       /\ StronglySorted str_lt forms_for_action /\ NoDup forms_for_action
       /\ (forall raw, raw ∈ aliases
                       <-> alias_source forms (row_action row) raw)
       /\ (forall name, name ∈ forms_for_action
                        <-> form_source forms (row_action row) name))
     (build_action_matrix forms ticket_map).
Proof.
  assert (Hs : StronglySorted str_lt
                 (row_action <$> build_action_matrix forms ticket_map)).
  { rewrite build_action_matrix_actions. apply py_sorted_strict, NoDup_elements. }
  split; [exact Hs|]. split; [by apply str_lt_sorted_NoDup|].
  split.
  { intros c. by rewrite build_action_matrix_actions, py_sorted_perm,
      elem_of_elements, collect_actions_dom. }
  eapply Forall_impl; [apply build_action_matrix_rows|].
  intros row Hrow. cbv zeta.
  destruct (make_row_lists ticket_map (row_action row)
              (aliases_of (collect_actions forms) (row_action row))
              (forms_of (collect_actions forms) (row_action row)))
    as [_ [Ha [Hf _]]].
  rewrite <- Hrow in Ha, Hf.
  split; [exact Ha|]. split; [exact Hf|].
  split; [apply aliases_of_strict|].
  split; [apply str_lt_sorted_NoDup, aliases_of_strict|].
  split; [apply forms_of_strict|].
  split; [apply str_lt_sorted_NoDup, forms_of_strict|].
  split; [intros; apply aliases_of_elem | intros; apply forms_of_elem].
Qed.

Lemma lookup_first_hit (ticket_map : gmap pystr csvrow) before alias after entry :
  Forall (fun a => ticket_map !! a = None) before ->
  ticket_map !! alias = Some entry ->
  lookup_first ticket_map (before ++ alias :: after) = Some entry.
Proof.
  intros Hb Ha. induction Hb as [|a before Hnone _ IH]; simpl.
  - by rewrite Ha.
  - by rewrite Hnone.
Qed.

Lemma lookup_first_miss (ticket_map : gmap pystr csvrow) aliases :
  Forall (fun a => ticket_map !! a = None) aliases ->
  lookup_first ticket_map aliases = None.
Proof. induction 1 as [|a l Ha _ IH]; simpl; [done|]. by rewrite Ha. Qed.

Lemma make_row_mapped ticket_map c aliases forms_for_action entry :
  reconcile ticket_map c aliases = Some entry ->
  mapped_from (make_row ticket_map c aliases forms_for_action) entry.
Proof. unfold make_row. by intros ->. Qed.

Lemma make_row_unmapped ticket_map c aliases forms_for_action :
  reconcile ticket_map c aliases = None ->
  unmapped (make_row ticket_map c aliases forms_for_action).
Proof. unfold make_row. by intros ->. Qed.

(** C3: the matrix has a row for every canonical action the
    allow-listed forms give and no other; the aliases of a row are the
    raw actions of those forms with that canonical form, in ascending
    order; a row whose canonical action is a key of the ticket map
    takes the ticket, feature group and phase of that entry and is
    mapped; a row whose action is no key takes them from the entry of
    the first of its aliases, in ascending order, that is a key, and
    is mapped; a row with neither is unmapped with the three fields
    empty. *)
Theorem build_action_matrix_reconciled
  (forms : list FormSection) (ticket_map : gmap pystr csvrow) :
  (forall c,
     c ∈ row_action <$> build_action_matrix forms ticket_map
     <-> sourced forms c)
  /\ Forall (fun row =>
    let aliases := aliases_of (collect_actions forms) (row_action row) in
    row_aliases row = join (py ";") aliases
    /\ StronglySorted str_lt aliases
    /\ (forall raw, raw ∈ aliases
                    <-> alias_source forms (row_action row) raw)
    /\ (forall entry,
          ticket_map !! row_action row = Some entry -> mapped_from row entry)
    /\ (forall before alias after entry,
          ticket_map !! row_action row = None ->
          aliases = before ++ alias :: after ->
          Forall (fun a => ticket_map !! a = None) before ->
          ticket_map !! alias = Some entry ->
          mapped_from row entry)
    /\ (ticket_map !! row_action row = None ->
        Forall (fun a => ticket_map !! a = None) aliases ->
        unmapped row))
  (build_action_matrix forms ticket_map).
Proof.
  split.
  { intros c. by rewrite build_action_matrix_actions, py_sorted_perm,
      elem_of_elements, collect_actions_dom. }
  eapply Forall_impl; [apply build_action_matrix_rows|].
  intros row Hrow. cbv zeta.
  split.
  { rewrite Hrow at 1. apply make_row_lists. }
  split; [apply aliases_of_strict|].
  split; [intros raw; apply aliases_of_elem|]. split.
  { intros entry He. rewrite Hrow. apply make_row_mapped.
    unfold reconcile. by rewrite He. }
  split.
  - intros before alias after entry Hc Hal Hb Ha. rewrite Hrow.
    apply make_row_mapped. unfold reconcile. rewrite Hc, Hal.
    by apply lookup_first_hit.
  - intros Hc Hall. rewrite Hrow. apply make_row_unmapped.
    unfold reconcile. rewrite Hc. by apply lookup_first_miss.
Qed.

(** ** The form schema *)

Lemma total_count_bump (k : pystr) (counts : gmap pystr nat) :
  total_count (map_to_list (bump k counts))
  = S (total_count (map_to_list counts)).
Proof.
  unfold total_count, bump. destruct (counts !! k) as [v|] eqn:Hk; simpl.
  - rewrite <- (insert_delete_eq counts).
    rewrite map_to_list_insert by apply lookup_delete_eq.
    rewrite <- (map_to_list_delete counts k v Hk). simpl. lia.
  - rewrite map_to_list_insert by done. done.
Qed.

Lemma total_count_sorted_items (counts : gmap pystr nat) :
  total_count (sorted_items counts) = total_count (map_to_list counts).
Proof. unfold total_count, sorted_items. by rewrite sort_by_perm. Qed.

Section FormSchemaFacts.

Context (lower : pystr -> pystr).

Local Abbreviation control_record := (control_record lower).

Lemma foldl_tally_control t control_ids :
  let t' := foldl (tally_control lower) t control_ids in
  t_controls t' = t_controls t ++ (control_record <$> control_ids)
  /\ total_count (map_to_list (t_kind_counts t'))
     = (total_count (map_to_list (t_kind_counts t)) + length control_ids)%nat
  /\ total_count (map_to_list (t_domain_counts t'))
     = (total_count (map_to_list (t_domain_counts t)) + length control_ids)%nat.
Proof.
  revert t. induction control_ids as [|c l IH]; intros t; cbn zeta.
  { simpl. by rewrite app_nil_r, !Nat.add_0_r. }
  simpl. destruct (IH (tally_control lower t c)) as [Hc [Hk Hd]].
  rewrite Hc, Hk, Hd. unfold tally_control; simpl.
  rewrite !total_count_bump, <- app_assoc. repeat split; simpl; lia || done.
Qed.

Lemma form_entry_counts form :
  let e := form_entry lower form in
  fe_form_name e = form_name form
  /\ fe_resource_file e = resource_file form
  /\ fe_action_count e = length (actions form)
  /\ fe_control_count e = length (controls form)
  /\ fe_controls e = control_record <$> controls form
  /\ total_count (fe_kind_counts e) = length (controls form)
  /\ total_count (fe_domain_counts e) = length (controls form).
Proof.
  cbn zeta. unfold form_entry. cbn zeta. simpl.
  destruct (foldl_tally_control (mkTally [] ∅ ∅) (controls form))
    as [Hc [Hk Hd]].
  rewrite !total_count_sorted_items, Hc, Hk, Hd. simpl.
  unfold total_count. rewrite !map_to_list_empty. done.
Qed.

(** C10: every entry of the schema is the entry of a form of the
    allow-list among the parsed forms; its control count is the length
    of its controls list, the sum of its kind counts and the sum of
    its domain counts; its action count is the length of the form's
    action list; and its controls are the form's controls in their
    parsed order, each with the kind and the domain the classifiers
    give its identifier. *)
Theorem build_form_schema_counts (now : pystr) (forms : list FormSection) :
  Forall (fun e =>
    exists form,
      form ∈ forms /\ form_name form ∈ target_forms
      /\ fe_form_name e = form_name form
      /\ fe_resource_file e = resource_file form
      /\ fe_action_count e = length (actions form)
      /\ fe_control_count e = length (fe_controls e)
      /\ fe_control_count e = total_count (fe_kind_counts e)
      /\ fe_control_count e = total_count (fe_domain_counts e)
      /\ fe_controls e
         = (fun control_id =>
              mkControlRecord control_id (infer_control_kind control_id)
                (infer_control_domain lower control_id)) <$> controls form
      /\ ctl_id <$> fe_controls e = controls form)
    (doc_forms (build_form_schema lower now forms)).
Proof.
  unfold build_form_schema. cbv zeta. simpl.
  apply Forall_forall. intros e He.
  apply list_elem_of_fmap in He as [form [-> Hform]].
  rewrite sort_by_perm in Hform. apply list_elem_of_filter in Hform as [Ht Hin].
  exists form. destruct (form_entry_counts form) as (Hn & Hr & Ha & Hc & Hl & Hk & Hd).
  cbn zeta in *. rewrite Hn, Hr, Ha, Hc, Hl, Hk, Hd, length_fmap.
  repeat split; try done.
  rewrite <- list_fmap_compose. apply list_fmap_id.
Qed.

End FormSchemaFacts.

(** * Further properties *)

(** ** Trimming *)

Lemma lstrip_by_fix f s :
  match s with [] => True | c :: _ => f c = false end -> lstrip_by f s = s.
Proof. destruct s as [|c s]; simpl; [done|]. by intros ->. Qed.

Lemma lstrip_by_idem f s : lstrip_by f (lstrip_by f s) = lstrip_by f s.
Proof.
  apply lstrip_by_fix. destruct (lstrip_by f s) as [|c t] eqn:H; [done|].
  by apply lstrip_by_head in H.
Qed.

Lemma lstrip_by_pad f ws s :
  Forall (fun c => f c = true) ws -> lstrip_by f (ws ++ s) = lstrip_by f s.
Proof. induction 1 as [|c ws Hc _ IH]; simpl; [done|]. by rewrite Hc. Qed.

Lemma rstrip_by_pad f s ws :
  Forall (fun c => f c = true) ws -> rstrip_by f (s ++ ws) = rstrip_by f s.
Proof.
  intros H. unfold rstrip_by. rewrite rev_app_distr, lstrip_by_pad; [done|].
  by apply Forall_rev.
Qed.

Lemma rstrip_by_idem f s : rstrip_by f (rstrip_by f s) = rstrip_by f s.
Proof. unfold rstrip_by. by rewrite rev_involutive, lstrip_by_idem. Qed.

(** A trimmed text does not start with white space. *)
Lemma strip_head s c t : strip s = c :: t -> is_space c = false.
Proof.
  unfold strip, rstrip, lstrip. intros H.
  destruct (rstrip_by_split is_space (lstrip_by is_space s)) as [b Hb].
  rewrite H in Hb. by apply lstrip_by_head in Hb.
Qed.

Lemma strip_idem s : strip (strip s) = strip s.
Proof.
  assert (H : lstrip (strip s) = strip s).
  { apply lstrip_by_fix. destruct (strip s) as [|c t] eqn:Hs; [done|].
    by apply strip_head in Hs. }
  unfold strip at 1. rewrite H. unfold strip, rstrip. apply rstrip_by_idem.
Qed.

Lemma strip_pad ws1 s ws2 :
  Forall (fun c => is_space c = true) ws1 ->
  Forall (fun c => is_space c = true) ws2 ->
  strip (ws1 ++ s ++ ws2) = strip s.
Proof.
  intros H1 H2. unfold strip, lstrip, rstrip. rewrite lstrip_by_pad by done.
  clear H1. induction s as [|c s IH]; simpl.
  - replace (lstrip_by is_space ws2) with (@nil N); [done|].
    symmetry. clear -H2. induction H2 as [|c ws Hc _ IH]; simpl; [done|].
    by rewrite Hc.
  - destruct (is_space c); [exact IH|].
    by rewrite (rstrip_by_pad _ (c :: s) ws2).
Qed.

(** ** The action canonicaliser, continued *)

Lemma trimmed_fixed c :
  (if endswith (strip c) (py "Execute")
   then take (length (strip c) - 7) (strip c)
   else strip c) = c
  <-> strip c = c /\ endswith c (py "Execute") = false.
Proof.
  split.
  - intros H. pose proof (strip_length c) as Hlen.
    destruct (endswith (strip c) (py "Execute")) eqn:He.
    + apply endswith_length in He.
      change (length (py "Execute")) with 7%nat in He.
      apply (f_equal length) in H. rewrite length_take in H. lia.
    + split; [done|]. by rewrite H in He.
  - intros [Hs He]. by rewrite Hs, He.
Qed.

(** The texts canonicalisation leaves as they are: trimmed, not ending
    in Execute, and without the misspelt LinePallet. *)
Theorem canonicalize_action_fixed_point (s : pystr) :
  canonicalize_action s = s
  <-> strip s = s /\ endswith s (py "Execute") = false
      /\ contains s (py "LinePallet") = false.
Proof.
  split.
  - intros H.
    assert (Hc : contains s LinePallet = false).
    { rewrite <- H. apply canonicalize_action_clean. }
    rewrite (canonicalize_action_absent s Hc) in H.
    apply trimmed_fixed in H as [? ?]. done.
  - intros (Hs & He & Hc). rewrite (canonicalize_action_absent s Hc).
    by apply trimmed_fixed.
Qed.

(** White space around a raw action does not change its canonical form. *)
Theorem canonicalize_action_padding (ws1 s ws2 : pystr) :
  Forall (fun c => is_space c = true) ws1 ->
  Forall (fun c => is_space c = true) ws2 ->
  canonicalize_action (ws1 ++ s ++ ws2) = canonicalize_action s.
Proof.
  intros H1 H2. rewrite !canonicalize_action_unfold.
  by rewrite (strip_pad ws1 s ws2 H1 H2).
Qed.

Lemma canonicalize_action_padding_witness :
  canonicalize_action ([9; 32] ++ py "actLinePalletNewExecute" ++ [32; 10])
  = canonicalize_action (py "actLinePalletNewExecute").
Proof.
  apply canonicalize_action_padding;
    repeat (apply Forall_cons_2; [reflexivity|]); apply Forall_nil_2.
Defined.


Lemma replace_palette_first s c t :
  replace s LinePallet LinePalette = c :: t ->
  c = 76 \/ exists s', s = c :: s'.
Proof.
  destruct (startswith s LinePallet) eqn:Hp.
  - rewrite (replace_hit _ _ LinePallet_nonempty) by done.
    change LinePalette with (76 :: py "inePalette"). intros [= <- _]. by left.
  - destruct s as [|a s]; [done|].
    rewrite replace_miss by done. intros [= <- _]. right. eauto.
Qed.

(** The canonical form never holds the misspelt LinePallet and never
    starts with white space. *)
Theorem canonicalize_action_never (action : pystr) :
  contains (canonicalize_action action) (py "LinePallet") = false
  /\ (forall c t, canonicalize_action action = c :: t -> is_space c = false).
Proof.
  split; [apply canonicalize_action_clean|].
  intros c t. rewrite canonicalize_action_unfold. intros H.
  apply replace_palette_first in H as [->|[s' Hs']]; [done|].
  destruct (endswith (strip action) (py "Execute")).
  - destruct (strip action) as [|a r] eqn:Hs; [by rewrite take_nil in Hs'|].
    destruct (length (a :: r) - 7)%nat; [done|].
    simpl in Hs'. injection Hs' as -> _. by apply strip_head in Hs.
  - by apply strip_head in Hs'.
Qed.

(** White space may stay at the end, in front of a removed suffix. *)
Example canonicalize_action_trailing_space :
  canonicalize_action (py "actSave Execute") = py "actSave ".
Proof. reflexivity. Qed.

(** ** The header pattern *)

Section Matcher.

Context {A : Type}.

Lemma lit_spec p (k : pystr -> option A) s r :
  HeaderPattern.lit p k s = Some r
  <-> exists rest, s = p ++ rest /\ k rest = Some r.
Proof.
  unfold HeaderPattern.lit. destruct (startswith s p) eqn:Hs.
  - apply startswith_prefix in Hs as [t ->]. rewrite drop_app_length. split.
    + eauto.
    + intros [rest [Heq Hk]]. by apply app_inv_head in Heq as ->.
  - split; [done|]. intros [rest [-> _]]. by rewrite startswith_app in Hs.
Qed.

Lemma plus_sound cls (k : pystr -> option A) s r :
  HeaderPattern.plus cls k s = Some r ->
  exists w rest,
    s = w ++ rest /\ w <> [] /\ Forall (fun c => cls c = true) w
    /\ k rest = Some r.
Proof.
  induction s as [|c s IH]; simpl; [done|].
  destruct (cls c) eqn:Hc; [|done].
  destruct (HeaderPattern.plus cls k s) as [r'|] eqn:Hp.
  - intros [= ->]. destruct (IH eq_refl) as (w & rest & -> & _ & Hw & Hk).
    exists (c :: w), rest. repeat split; [done|by constructor|done].
  - intros Hk. exists [c], s. repeat split; [done|by repeat constructor|done].
Qed.

Lemma plus_complete cls (k : pystr -> option A) w rest :
  w <> [] -> Forall (fun c => cls c = true) w -> is_Some (k rest) ->
  is_Some (HeaderPattern.plus cls k (w ++ rest)).
Proof.
  intros Hne Hw Hk. induction Hw as [|c w Hc Hw IH]; [done|].
  simpl. rewrite Hc. destruct w as [|c' w].
  - simpl. by destruct (HeaderPattern.plus cls k rest).
  - destruct (IH ltac:(done)) as [r ->]. eauto.
Qed.

Lemma lazy_group_sound cls (k : pystr -> pystr -> option A) s r :
  HeaderPattern.lazy_group cls k s = Some r ->
  exists g rest,
    s = g ++ rest /\ g <> [] /\ Forall (fun c => cls c = true) g
    /\ k g rest = Some r.
Proof.
  revert k. induction s as [|c s IH]; intros k; simpl; [done|].
  destruct (cls c) eqn:Hc; [|done].
  destruct (k [c] s) as [r'|] eqn:Hk.
  - intros [= ->]. exists [c], s. repeat split; [done|by repeat constructor|done].
  - intros H. destruct (IH _ H) as (g & rest & -> & _ & Hg & Hkg).
    exists (c :: g), rest. repeat split; [done|by constructor|done].
Qed.

Lemma lazy_group_complete cls (k : pystr -> pystr -> option A) g rest :
  g <> [] -> Forall (fun c => cls c = true) g -> is_Some (k g rest) ->
  is_Some (HeaderPattern.lazy_group cls k (g ++ rest)).
Proof.
  intros Hne Hg. revert k. induction Hg as [|c g Hc Hg IH]; intros k Hk; [done|].
  simpl. rewrite Hc. destruct (k [c] (g ++ rest)) as [r|] eqn:Hk1; [eauto|].
  destruct g as [|c' g]; [simpl in Hk1; rewrite Hk1 in Hk; by destruct Hk|].
  by apply (IH ltac:(done) (fun g => k (c :: g))).
Qed.

End Matcher.

(** A match has the shape of the pattern around its two groups. *)
Lemma header_match_sound line g1 g2 :
  HeaderPattern.match_ line = Some (g1, g2) -> header_shape g1 g2 line.
Proof.
  unfold HeaderPattern.match_. intros H.
  apply lit_spec in H as (r0 & -> & H).
  apply plus_sound in H as (w1 & r1 & -> & Hw1 & Hw1' & H).
  apply lazy_group_sound in H as (h1 & r2 & -> & Hh1 & Hh1' & H).
  apply plus_sound in H as (w2 & r3 & -> & Hw2 & Hw2' & H).
  apply lit_spec in H as (r4 & -> & H).
  apply plus_sound in H as (w3 & r5 & -> & Hw3 & Hw3' & H).
  apply lazy_group_sound in H as (h2 & r6 & -> & Hh2 & Hh2' & H).
  apply plus_sound in H as (w4 & r7 & -> & Hw4 & Hw4' & H).
  apply lit_spec in H as (r8 & -> & H). injection H as -> ->.
  exists w1, w2, w3, w4, r8. by repeat split.
Qed.

(** A line of the shape of the pattern matches. *)
Lemma header_match_complete line g1 g2 :
  header_shape g1 g2 line -> is_Some (HeaderPattern.match_ line).
Proof.
  intros (w1 & w2 & w3 & w4 & rest & -> & [? ?] & [? ?] & [? ?] & [? ?]
          & [? ?] & [? ?]).
  unfold HeaderPattern.match_.
  assert (Hlit : forall p (k : pystr -> option (pystr * pystr)) r,
            is_Some (k r) -> is_Some (HeaderPattern.lit p k (p ++ r))).
  { intros p k r [x Hx]. exists x. apply lit_spec. eauto. }
  apply Hlit. apply plus_complete; [done..|].
  apply lazy_group_complete; [done..|].
  apply plus_complete; [done..|]. apply Hlit.
  apply plus_complete; [done..|].
  apply lazy_group_complete; [done..|].
  apply plus_complete; [done..|]. apply Hlit. eauto.
Qed.

(** The lines [HEADER_PATTERN] matches are those that start with three
    equals signs, white space, a text, white space, a bar, white space,
    a text, white space and a bar; the groups of a match are two such
    texts. *)
Theorem header_match_shape (line : pystr) :
  (is_Some (HeaderPattern.match_ line)
   <-> exists g1 g2, header_shape g1 g2 line)
  /\ (forall g1 g2,
        HeaderPattern.match_ line = Some (g1, g2) -> header_shape g1 g2 line).
Proof.
  split; [|apply header_match_sound]. split.
  - intros [[g1 g2] H]. exists g1, g2. by apply header_match_sound.
  - intros (g1 & g2 & H). by eapply header_match_complete.
Qed.

(** ** The section parser, continued *)

Lemma header_of_None raw_line :
  header_of raw_line = None <-> HeaderPattern.match_ (rstrip_nl raw_line) = None.
Proof.
  unfold header_of.
  by destruct (HeaderPattern.match_ (rstrip_nl raw_line)) as [[g1 g2]|].
Qed.

(** What a line that is no header does to a section in progress. *)
Lemma parse_line_current st raw_line current :
  header_of raw_line = None -> ps_current st = Some current ->
  parse_line st raw_line
  = if startswith (rstrip_nl raw_line) (py "Actions (")
    then mkParseState (ps_forms st) (Some current) ModeActions
    else if startswith (rstrip_nl raw_line) (py "Controls (")
    then mkParseState (ps_forms st) (Some current) ModeControls
    else if is_blank (rstrip_nl raw_line) then st
    else match ps_mode st with
         | ModeActions =>
             mkParseState (ps_forms st)
               (Some (append_action current (line_text raw_line))) ModeActions
         | ModeControls =>
             mkParseState (ps_forms st)
               (Some (append_control current (line_text raw_line)))
               ModeControls
         | ModeNone => st
         end.
Proof.
  intros Hh Hc. apply header_of_None in Hh.
  unfold parse_line. by rewrite Hh, Hc.
Qed.

Section ParsedFrom.

Context (lines : list pystr).

Local Abbreviation state_of := (state_of lines).

Lemma finish_of st : state_of st -> Forall (section_of lines) (finish st).
Proof.
  intros [Hf Hc]. unfold finish. destruct (ps_current st) as [cur|]; [|done].
  apply Forall_app. split; [done|]. constructor; [by apply Hc|constructor].
Qed.

Lemma parse_line_of st raw_line :
  raw_line ∈ lines -> state_of st -> state_of (parse_line st raw_line).
Proof.
  intros Hin Hst. destruct (header_of raw_line) as [id|] eqn:Hh.
  - rewrite (parse_line_header st raw_line id Hh). split; simpl.
    + by apply finish_of.
    + intros cur [= <-]. split; [|by split; constructor].
      exists raw_line. split; [done|]. by destruct id.
  - destruct (ps_current st) as [cur|] eqn:Hc.
    2:{ unfold parse_line. apply header_of_None in Hh. by rewrite Hh, Hc. }
    destruct Hst as [Hf Hcur]. specialize (Hcur cur Hc).
    rewrite (parse_line_current st raw_line cur Hh Hc).
    destruct (startswith (rstrip_nl raw_line) (py "Actions (")) eqn:Ha.
    { split; simpl; [done|]. by intros ? [= <-]. }
    destruct (startswith (rstrip_nl raw_line) (py "Controls (")) eqn:Hco.
    { split; simpl; [done|]. by intros ? [= <-]. }
    destruct (is_blank (rstrip_nl raw_line)) eqn:Hb.
    { split; [done|]. intros ? Hc'. rewrite Hc in Hc'. by injection Hc' as <-. }
    assert (He : entry_of lines (line_text raw_line)).
    { exists raw_line. split; [done|]. split; [|done].
      unfold entry_line, actions_marker, controls_marker, blank_line.
      rewrite Ha, Hco, Hb. done. }
    destruct Hcur as (Hid & Has & Hcs).
    destruct (ps_mode st); split; simpl; try done.
    + intros ? Hc'. rewrite Hc in Hc'. injection Hc' as <-. by split.
    + intros ? [= <-]. split; [done|]. split; [|done].
      simpl. apply Forall_app. split; [done|]. by repeat constructor.
    + intros ? [= <-]. split; [done|]. split; [done|].
      simpl. apply Forall_app. split; [done|]. by repeat constructor.
Qed.

Lemma foldl_parse_line_of st ls :
  (forall l, l ∈ ls -> l ∈ lines) -> state_of st ->
  state_of (foldl parse_line st ls).
Proof.
  revert st. induction ls as [|l ls IH]; intros st Hls Hst; [done|].
  simpl. apply IH.
  - intros l' Hl'. apply Hls. by right.
  - apply parse_line_of; [|done]. apply Hls. left.
Qed.

End ParsedFrom.

Lemma entry_of_trimmed lines a : entry_of lines a -> a <> [] /\ strip a = a.
Proof.
  intros (raw & _ & (_ & _ & _ & Hb) & ->). unfold line_text. split.
  - intros Hs. apply Hb. unfold blank_line, is_blank. by rewrite Hs.
  - apply strip_idem.
Qed.

Lemma parse_form_sections_of lines :
  Forall (section_of lines) (parse_form_sections lines).
Proof.
  apply finish_of, foldl_parse_line_of; [done|]. split; [constructor|done].
Qed.

(** Every parsed section has the identity of a header line of the
    input, trimmed, and every action and control it holds is the
    trimmed, non-empty text of a line of the input that is neither a
    header nor a marker nor blank. *)
Theorem parse_form_sections_entries (lines : list pystr) :
  Forall (fun f =>
    section_of lines f
    /\ strip (resource_file f) = resource_file f
    /\ strip (form_name f) = form_name f
    /\ Forall (fun a => a <> [] /\ strip a = a) (actions f ++ controls f))
  (parse_form_sections lines).
Proof.
  eapply Forall_impl; [apply parse_form_sections_of|].
  intros f Hf. split; [done|].
  destruct Hf as ((raw & _ & Hraw) & Ha & Hc).
  unfold header_of in Hraw.
  destruct (HeaderPattern.match_ (rstrip_nl raw)) as [[g1 g2]|]; [|done].
  injection Hraw as Hr Hn. unfold section_id in *. simpl in *.
  rewrite <- Hr, <- Hn, !strip_idem. split; [done|]. split; [done|].
  apply Forall_app. split; (eapply Forall_impl; [eassumption|]);
    apply entry_of_trimmed.
Qed.

(** The sections of an input that continues with a header: those
    before it, then those the rest gives from a fresh section. *)
Lemma parse_form_sections_from_header pre header id body :
  header_of header = Some id ->
  parse_form_sections (pre ++ header :: body)
  = parse_form_sections pre
    ++ finish (foldl parse_line
                 (mkParseState [] (Some (mkFormSection (fst id) (snd id) [] []))
                    ModeNone) body).
Proof.
  intros Hid. unfold parse_form_sections. rewrite foldl_app. cbn [foldl].
  rewrite (parse_line_header _ header id Hid).
  rewrite <- finish_prepend, <- foldl_parse_line_prepend.
  unfold prepend; simpl. by rewrite app_nil_r.
Qed.

Lemma marker_not_header raw_line c p :
  c <> 61 -> startswith (rstrip_nl raw_line) (c :: p) = true ->
  header_of raw_line = None.
Proof.
  intros Hc Hs. apply header_of_None.
  unfold HeaderPattern.match_, HeaderPattern.lit.
  destruct (rstrip_nl raw_line) as [|a l]; [done|].
  rewrite startswith_cons in Hs. apply andb_true_iff in Hs as [Ha _].
  apply N.eqb_eq in Ha as ->. change (py "===") with (61 :: py "==").
  rewrite startswith_cons. by destruct (N.eqb_spec c 61).
Qed.

Lemma actions_marker_not_header raw_line :
  actions_marker raw_line -> header_of raw_line = None.
Proof. by apply (marker_not_header raw_line 65 (py "ctions (")). Qed.

Lemma controls_marker_not_header raw_line :
  controls_marker raw_line -> header_of raw_line = None.
Proof. by apply (marker_not_header raw_line 67 (py "ontrols (")). Qed.

Lemma controls_marker_not_actions raw_line :
  controls_marker raw_line -> ~ actions_marker raw_line.
Proof.
  unfold controls_marker, actions_marker.
  destruct (rstrip_nl raw_line) as [|a l]; [done|].
  change (py "Controls (") with (67 :: py "ontrols (").
  change (py "Actions (") with (65 :: py "ctions (").
  rewrite !startswith_cons, !andb_true_iff, !N.eqb_eq.
  intros [-> _] [? _]. done.
Qed.

Lemma parse_line_actions_marker forms current mode raw_line :
  actions_marker raw_line ->
  parse_line (mkParseState forms (Some current) mode) raw_line
  = mkParseState forms (Some current) ModeActions.
Proof.
  intros Ha.
  rewrite (parse_line_current (mkParseState forms (Some current) mode)
             raw_line current (actions_marker_not_header _ Ha) eq_refl).
  unfold actions_marker in Ha. by rewrite Ha.
Qed.

Lemma parse_line_controls_marker forms current mode raw_line :
  controls_marker raw_line ->
  parse_line (mkParseState forms (Some current) mode) raw_line
  = mkParseState forms (Some current) ModeControls.
Proof.
  intros Hc.
  rewrite (parse_line_current (mkParseState forms (Some current) mode)
             raw_line current (controls_marker_not_header _ Hc) eq_refl).
  pose proof (controls_marker_not_actions _ Hc) as Ha.
  unfold actions_marker, controls_marker in *.
  destruct (startswith (rstrip_nl raw_line) (py "Actions (")); [done|].
  by rewrite Hc.
Qed.

Lemma parse_line_entry forms current mode raw_line :
  entry_line raw_line ->
  parse_line (mkParseState forms (Some current) mode) raw_line
  = match mode with
    | ModeActions =>
        mkParseState forms
          (Some (append_action current (line_text raw_line))) ModeActions
    | ModeControls =>
        mkParseState forms
          (Some (append_control current (line_text raw_line))) ModeControls
    | ModeNone => mkParseState forms (Some current) ModeNone
    end.
Proof.
  intros (Hh & Ha & Hc & Hb).
  rewrite (parse_line_current (mkParseState forms (Some current) mode)
             raw_line current Hh eq_refl).
  unfold actions_marker, controls_marker, blank_line in *.
  destruct (startswith (rstrip_nl raw_line) (py "Actions (")); [done|].
  destruct (startswith (rstrip_nl raw_line) (py "Controls (")); [done|].
  destruct (is_blank (rstrip_nl raw_line)); [done|].
  by destruct mode.
Qed.

Lemma foldl_parse_line_actions forms r n acts ctls ls :
  Forall entry_line ls ->
  foldl parse_line
    (mkParseState forms (Some (mkFormSection r n acts ctls)) ModeActions) ls
  = mkParseState forms
      (Some (mkFormSection r n (acts ++ (line_text <$> ls)) ctls)) ModeActions.
Proof.
  intros Hls. revert acts. induction Hls as [|l ls Hl _ IH]; intros acts.
  { simpl. by rewrite app_nil_r. }
  simpl. rewrite (parse_line_entry _ _ _ l Hl). unfold append_action; simpl.
  rewrite IH. by rewrite <- app_assoc.
Qed.

Lemma foldl_parse_line_controls forms r n acts ctls ls :
  Forall entry_line ls ->
  foldl parse_line
    (mkParseState forms (Some (mkFormSection r n acts ctls)) ModeControls) ls
  = mkParseState forms
      (Some (mkFormSection r n acts (ctls ++ (line_text <$> ls)))) ModeControls.
Proof.
  intros Hls. revert ctls. induction Hls as [|l ls Hl _ IH]; intros ctls.
  { simpl. by rewrite app_nil_r. }
  simpl. rewrite (parse_line_entry _ _ _ l Hl). unfold append_control; simpl.
  rewrite IH. by rewrite <- app_assoc.
Qed.

(** A section written as the format has it, a header, the actions
    marker, the action lines, the controls marker and the control
    lines, up to the next header or the end of the input, parses to
    the section of the header with the trimmed action and control
    lines in their order, between the sections of what is before and
    of what is after. *)
Theorem parse_form_sections_well_formed
  (pre : list pystr) (header : pystr) (id : pystr * pystr)
  (a_marker : pystr) (a_lines : list pystr)
  (c_marker : pystr) (c_lines post : list pystr) :
  header_of header = Some id ->
  actions_marker a_marker -> Forall entry_line a_lines ->
  controls_marker c_marker -> Forall entry_line c_lines ->
  match post with [] => True | next :: _ => is_Some (header_of next) end ->
  parse_form_sections
    (pre ++ (header :: a_marker :: a_lines ++ c_marker :: c_lines) ++ post)
  = parse_form_sections pre
    ++ [mkFormSection (fst id) (snd id)
          (line_text <$> a_lines) (line_text <$> c_lines)]
    ++ parse_form_sections post.
Proof.
  intros Hid Ham Hal Hcm Hcl Hpost.
  assert (Hsec : forall pre',
            parse_form_sections
              (pre' ++ header :: a_marker :: a_lines ++ c_marker :: c_lines)
            = parse_form_sections pre'
              ++ [mkFormSection (fst id) (snd id)
                    (line_text <$> a_lines) (line_text <$> c_lines)]).
  { intros pre'.
    rewrite (parse_form_sections_from_header pre' header id _ Hid). f_equal.
    cbn [foldl]. rewrite (parse_line_actions_marker _ _ _ _ Ham).
    rewrite foldl_app. rewrite (foldl_parse_line_actions _ _ _ _ _ _ Hal).
    cbn [foldl]. rewrite (parse_line_controls_marker _ _ _ _ Hcm).
    by rewrite (foldl_parse_line_controls _ _ _ _ _ _ Hcl). }
  destruct post as [|next post].
  { rewrite app_nil_r, Hsec. done. }
  destruct Hpost as [id' Hid']. rewrite app_assoc.
  rewrite (parse_form_sections_from_header _ next id' post Hid'), Hsec.
  rewrite <- app_assoc. do 2 f_equal. symmetry.
  exact (parse_form_sections_from_header [] next id' post Hid').
Qed.

Lemma parse_form_sections_well_formed_witness :
  parse_form_sections
    ([py "junk"]
       ++ (py "=== a.rsrc | TfrmLeat | x" :: py "Actions (2):"
             :: [py " actOne"; py " actTwo "]
             ++ py "Controls (1):" :: [py " btnOk"])
       ++ [py "=== b.rsrc | TfrmOptions |"])
  = parse_form_sections [py "junk"]
    ++ [mkFormSection (py "a.rsrc") (py "TfrmLeat")
          (line_text <$> [py " actOne"; py " actTwo "])
          (line_text <$> [py " btnOk"])]
    ++ parse_form_sections [py "=== b.rsrc | TfrmOptions |"].
Proof.
  apply (parse_form_sections_well_formed _ _ (py "a.rsrc", py "TfrmLeat"));
    try reflexivity; try (by eexists);
    repeat (apply Forall_cons_2;
            [repeat split; (reflexivity || (intros H; vm_compute in H; discriminate H))|]);
    apply Forall_nil_2.
Defined.

(** The lines of a section in front of its first marker are dropped:
    a header followed by lines that are neither headers nor markers
    gives a section without actions and controls. *)
Theorem parse_form_sections_before_marker
  (pre : list pystr) (header : pystr) (id : pystr * pystr)
  (body : list pystr) :
  header_of header = Some id ->
  Forall (fun l => header_of l = None /\ ~ actions_marker l
                   /\ ~ controls_marker l) body ->
  parse_form_sections (pre ++ header :: body)
  = parse_form_sections pre ++ [mkFormSection (fst id) (snd id) [] []].
Proof.
  intros Hid Hbody.
  rewrite (parse_form_sections_from_header pre header id _ Hid). f_equal.
  induction Hbody as [|l body (Hh & Ha & Hc) _ IH]; [done|].
  cbn [foldl].
  rewrite (parse_line_current (mkParseState [] (Some _) ModeNone) l _ Hh eq_refl).
  unfold actions_marker, controls_marker in *.
  destruct (startswith (rstrip_nl l) (py "Actions (")); [done|].
  destruct (startswith (rstrip_nl l) (py "Controls (")); [done|].
  destruct (is_blank (rstrip_nl l)); exact IH.
Qed.

Lemma parse_form_sections_before_marker_witness :
  parse_form_sections
    ([] ++ py "=== a.rsrc | TfrmLeat | x" :: [py "actLost"; py "  Actions (1)"])
  = parse_form_sections []
    ++ [mkFormSection (py "a.rsrc") (py "TfrmLeat") [] []].
Proof.
  apply (parse_form_sections_before_marker _ _ (py "a.rsrc", py "TfrmLeat"));
    try reflexivity;
    repeat (apply Forall_cons_2;
            [repeat split; (reflexivity || (intros H; vm_compute in H; discriminate H))|]);
    apply Forall_nil_2.
Defined.

(** ** The ticket map, continued *)

Lemma load_action_ticket_map_filed (rows : list csvrow) :
  (forall key row,
     load_action_ticket_map rows !! key = Some row ->
     row ∈ rows /\ row_key row = key /\ key <> [] /\ strip key = key)
  /\ (forall row,
        row ∈ rows -> row_key row <> [] ->
        is_Some (load_action_ticket_map rows !! row_key row)).
Proof.
  induction rows as [|r rows [IH1 IH2]] using rev_ind.
  { split; [intros key row H; unfold load_action_ticket_map in H;
             simpl in H; by rewrite lookup_empty in H|].
    intros row H. by apply elem_of_nil in H. }
  rewrite load_action_ticket_map_snoc. split.
  - intros key row H.
    assert (Hold : load_action_ticket_map rows !! key = Some row ->
                   row ∈ rows ++ [r] /\ row_key row = key /\ key <> []
                   /\ strip key = key).
    { intros H'. destruct (IH1 key row H') as (? & ? & ? & ?).
      split; [apply elem_of_app; by left|done]. }
    destruct (row_key r) as [|c k] eqn:Hk; [by apply Hold|].
    destruct (decide (c :: k = key)) as [<-|Hne].
    + rewrite lookup_insert_eq in H. injection H as <-.
      split; [apply elem_of_app; right; left|].
      split; [done|]. split; [done|].
      rewrite <- Hk. unfold row_key. apply strip_idem.
    + rewrite lookup_insert_ne in H by done. by apply Hold.
  - intros row Hin Hne. apply elem_of_app in Hin as [Hin|Hin].
    + specialize (IH2 row Hin Hne).
      destruct (row_key r) as [|c k] eqn:Hk; [done|].
      destruct (decide (c :: k = row_key row)) as [<-|Hne'].
      * rewrite lookup_insert_eq. eauto.
      * by rewrite lookup_insert_ne.
    + apply list_elem_of_singleton in Hin as ->.
      destruct (row_key r) as [|c k] eqn:Hk; [done|].
      rewrite lookup_insert_eq. eauto.
Qed.

(** Every entry of the mapping is a row of the input filed under its
    own trimmed action, which is not empty; and every row with a
    non-blank action has its key in the mapping. *)
Theorem load_action_ticket_map_entries (rows : list csvrow) :
  (forall key row,
     load_action_ticket_map rows !! key = Some row ->
     row ∈ rows /\ row_key row = key /\ key <> [] /\ strip key = key)
  /\ (forall row,
        row ∈ rows -> row_key row <> [] ->
        is_Some (load_action_ticket_map rows !! row_key row)).
Proof. apply load_action_ticket_map_filed. Qed.

(** Loading two files one after the other is loading the second over
    the first: the rows of the second win. *)
Theorem load_action_ticket_map_app (rows1 rows2 : list csvrow) :
  load_action_ticket_map (rows1 ++ rows2)
  = load_action_ticket_map rows2 ∪ load_action_ticket_map rows1.
Proof.
  induction rows2 as [|r rows2 IH] using rev_ind.
  { rewrite app_nil_r. unfold load_action_ticket_map at 2. simpl.
    by rewrite (left_id_L ∅ (∪)). }
  rewrite app_assoc, !load_action_ticket_map_snoc, IH.
  destruct (row_key r); [done|]. by rewrite insert_union_l.
Qed.

(** ** The action matrix, continued *)

Lemma lookup_first_None (ticket_map : gmap pystr csvrow) aliases :
  lookup_first ticket_map aliases = None
  <-> Forall (fun a => ticket_map !! a = None) aliases.
Proof.
  split; [|apply lookup_first_miss].
  induction aliases as [|a l IH]; simpl; [constructor|].
  destruct (ticket_map !! a) eqn:Ha; [done|]. intros H. constructor; auto.
Qed.

Lemma reconcile_None (ticket_map : gmap pystr csvrow) c aliases :
  reconcile ticket_map c aliases = None
  <-> ticket_map !! c = None
      /\ Forall (fun a => ticket_map !! a = None) aliases.
Proof.
  unfold reconcile. rewrite <- lookup_first_None.
  destruct (ticket_map !! c); [|tauto]. split; [done|]. by intros [? _].
Qed.

Lemma make_row_status ticket_map c aliases forms_for_action :
  row_status (make_row ticket_map c aliases forms_for_action)
  = match reconcile ticket_map c aliases with
    | Some _ => py "mapped"
    | None => py "unmapped"
    end.
Proof. unfold make_row. by destruct (reconcile _ _ _). Qed.

Lemma build_action_matrix_row_sourced forms ticket_map row :
  row ∈ build_action_matrix forms ticket_map -> sourced forms (row_action row).
Proof.
  intros Hrow. apply collect_actions_dom, elem_of_elements.
  rewrite <- py_sorted_perm, <- (build_action_matrix_actions forms ticket_map).
  apply list_elem_of_fmap. by exists row.
Qed.

(** Every row carries the cluster of its action; its status is mapped
    or unmapped; and it is mapped exactly when its canonical action or
    one of the raw actions with that canonical form is a key of the
    ticket map. *)
Theorem build_action_matrix_status
  (forms : list FormSection) (ticket_map : gmap pystr csvrow) :
  Forall (fun row =>
    row_cluster row = classify_cluster (row_action row)
    /\ (row_status row = py "mapped" \/ row_status row = py "unmapped")
    /\ (row_status row = py "mapped"
        <-> is_Some (ticket_map !! row_action row)
            \/ exists raw, alias_source forms (row_action row) raw
                           /\ is_Some (ticket_map !! raw)))
  (build_action_matrix forms ticket_map).
Proof.
  eapply Forall_impl; [apply build_action_matrix_rows|].
  intros row Hrow. cbv beta.
  set (c := row_action row) in *.
  set (als := aliases_of (collect_actions forms) c) in *.
  set (fs := forms_of (collect_actions forms) c) in *.
  assert (Hst : row_status row
                = match reconcile ticket_map c als with
                  | Some _ => py "mapped"
                  | None => py "unmapped"
                  end).
  { rewrite Hrow. apply make_row_status. }
  split.
  { rewrite Hrow. apply make_row_lists. }
  rewrite Hst. destruct (reconcile ticket_map c als) as [e|] eqn:Hr.
  - split; [by left|]. split; [|done]. intros _.
    destruct (ticket_map !! c) as [e'|] eqn:Hc; [left; eauto|]. right.
    destruct (decide (Forall (fun a => ticket_map !! a = None) als)) as [Hall|Hex].
    { assert (reconcile ticket_map c als = None) by by apply reconcile_None.
      congruence. }
    apply not_Forall_Exists in Hex; [|apply _].
    apply Exists_exists in Hex as (raw & Hin & Hraw).
    exists raw. split; [by apply aliases_of_elem|].
    by apply not_eq_None_Some.
  - split; [by right|]. split; [done|].
    apply reconcile_None in Hr as [Hc Hall].
    intros [[e He]|(raw & Hin & [e He])]; [congruence|].
    apply aliases_of_elem in Hin.
    rewrite Forall_forall in Hall. specialize (Hall raw Hin). congruence.
Qed.

(** Every row has at least one alias, each alias has the action of the
    row as its canonical form, and the row names one or two source
    forms, both of the allow-list. *)
Theorem build_action_matrix_row_sources
  (forms : list FormSection) (ticket_map : gmap pystr csvrow) :
  Forall (fun row =>
    let aliases := aliases_of (collect_actions forms) (row_action row) in
    let forms_for_action :=
      forms_of (collect_actions forms) (row_action row) in
    aliases <> []
    /\ Forall (fun raw => canonicalize_action raw = row_action row) aliases
    /\ (1 <= length forms_for_action <= 2)%nat
    /\ Forall (fun name => name ∈ source_forms) forms_for_action)
  (build_action_matrix forms ticket_map).
Proof.
  apply Forall_forall. intros row Hrow. cbv zeta.
  apply build_action_matrix_row_sourced in Hrow
    as (f & raw & Hf & Hsrc & Hraw & Hc & Hact).
  assert (Ha : raw ∈ aliases_of (collect_actions forms) (row_action row)).
  { apply aliases_of_elem. by exists f. }
  assert (Hn : form_name f ∈ forms_of (collect_actions forms) (row_action row)).
  { apply forms_of_elem. by exists f, raw. }
  assert (Hfs : Forall (fun name => name ∈ source_forms)
                  (forms_of (collect_actions forms) (row_action row))).
  { apply Forall_forall. intros n Hin.
    apply forms_of_elem in Hin as (f' & _ & _ & ? & <- & _). done. }
  split; [by intros H; rewrite H in Ha; apply elem_of_nil in Ha|].
  split.
  { apply Forall_forall. intros a Hin.
    by apply aliases_of_elem in Hin as (_ & _ & _ & _ & ? & _). }
  split; [|done]. split.
  - destruct (forms_of _ _); [by apply elem_of_nil in Hn|simpl; lia].
  - change 2%nat with (length (elements source_forms)).
    apply submseteq_length, NoDup_submseteq.
    + apply str_lt_sorted_NoDup, forms_of_strict.
    + intros n Hin. apply elem_of_elements.
      by apply (proj1 (Forall_forall _ _) Hfs).
Qed.

(** The accumulated dictionary depends on the raw actions and the form
    names it was fed, not on their order or number. *)
Lemma collect_actions_ext forms forms' :
  (forall c raw, alias_source forms c raw <-> alias_source forms' c raw) ->
  (forall c name, form_source forms c name <-> form_source forms' c name) ->
  collect_actions forms = collect_actions forms'.
Proof.
  intros Ha Hf.
  assert (Hs : forall c, sourced forms c <-> sourced forms' c).
  { intros c. split; intros (f & raw & H).
    - assert (alias_source forms' c raw) as (f' & ?) by (apply Ha; by exists f).
      by exists f', raw.
    - assert (alias_source forms c raw) as (f' & ?) by (apply Ha; by exists f).
      by exists f', raw. }
  apply map_eq. intros c.
  destruct (collect_actions forms !! c) as [i|] eqn:Hi,
           (collect_actions forms' !! c) as [i'|] eqn:Hi'.
  - f_equal.
    apply lookup_total_correct in Hi, Hi'.
    destruct (foldl_add_form_item ∅ forms c) as [Ha1 Hf1].
    destruct (foldl_add_form_item ∅ forms' c) as [Ha2 Hf2].
    fold (collect_actions forms) in Ha1, Hf1.
    fold (collect_actions forms') in Ha2, Hf2.
    cbv zeta in *. rewrite Hi in Ha1, Hf1. rewrite Hi' in Ha2, Hf2.
    rewrite lookup_total_empty in Ha1, Hf1, Ha2, Hf2. simpl in *.
    destruct i as [a1 f1], i' as [a2 f2]. simpl in *. f_equal.
    + apply set_eq. intros x. rewrite Ha1, Ha2, Ha. done.
    + apply set_eq. intros x. rewrite Hf1, Hf2, Hf. done.
  - assert (c ∈ dom (collect_actions forms')) as Hd.
    { apply collect_actions_dom, Hs, collect_actions_dom, elem_of_dom. eauto. }
    apply elem_of_dom in Hd as [? ?]. congruence.
  - assert (c ∈ dom (collect_actions forms)) as Hd.
    { apply collect_actions_dom, Hs, collect_actions_dom, elem_of_dom. eauto. }
    apply elem_of_dom in Hd as [? ?]. congruence.
  - done.
Qed.

(** Every form of [forms] has a form of [forms'] with its name and
    at least its raw actions. *)
Lemma collect_actions_covered forms forms' :
  (forall f, f ∈ forms ->
     exists f', f' ∈ forms' /\ form_name f' = form_name f
                /\ forall raw, raw ∈ actions f -> raw ∈ actions f') ->
  (forall f', f' ∈ forms' ->
     exists f, f ∈ forms /\ form_name f = form_name f'
               /\ forall raw, raw ∈ actions f' -> raw ∈ actions f) ->
  collect_actions forms = collect_actions forms'.
Proof.
  assert (Hhalf : forall l l' : list FormSection,
            (forall f, f ∈ l ->
               exists f', f' ∈ l' /\ form_name f' = form_name f
                          /\ forall raw, raw ∈ actions f -> raw ∈ actions f') ->
            (forall c raw, alias_source l c raw -> alias_source l' c raw)
            /\ (forall c name, form_source l c name -> form_source l' c name)).
  { intros l l' Hl. split.
    - intros c raw (f & Hf & Hsrc & Hin & Hc & Hact).
      destruct (Hl f Hf) as (f' & Hf' & Hn & Hac).
      exists f'. rewrite Hn. repeat split; auto.
    - intros c name (f & raw & Hf & Hsrc & Hname & Hin & Hc & Hact).
      destruct (Hl f Hf) as (f' & Hf' & Hn & Hac).
      exists f', raw. rewrite Hn. repeat split; auto. }
  intros H1 H2. destruct (Hhalf _ _ H1) as [Ha1 Hf1].
  destruct (Hhalf _ _ H2) as [Ha2 Hf2].
  apply collect_actions_ext; split; auto.
Qed.

(** The matrix does not depend on the order of the forms, on a form
    being listed more than once, or on the order and repetition of the
    raw actions inside a form. *)
Theorem build_action_matrix_order_free :
  (forall forms forms' ticket_map,
     forms ≡ₚ forms' ->
     build_action_matrix forms ticket_map
     = build_action_matrix forms' ticket_map)
  /\ (forall forms ticket_map,
        build_action_matrix (forms ++ forms) ticket_map
        = build_action_matrix forms ticket_map)
  /\ (forall pre f raw_actions raw_actions' post ticket_map,
        (forall raw, raw ∈ raw_actions <-> raw ∈ raw_actions') ->
        build_action_matrix (pre ++ with_actions f raw_actions :: post)
          ticket_map
        = build_action_matrix (pre ++ with_actions f raw_actions' :: post)
            ticket_map).
Proof.
  assert (Hsame : forall forms forms' : list FormSection,
            (forall f, f ∈ forms <-> f ∈ forms') ->
            collect_actions forms = collect_actions forms').
  { intros forms forms' H.
    apply collect_actions_covered; intros f Hf; exists f;
      (split; [by apply H|done]). }
  assert (Hone : forall pre f (l l' : list pystr) post,
            (forall raw, raw ∈ l -> raw ∈ l') ->
            forall g, g ∈ pre ++ with_actions f l :: post ->
              exists g', g' ∈ pre ++ with_actions f l' :: post
                         /\ form_name g' = form_name g
                         /\ forall raw, raw ∈ actions g -> raw ∈ actions g').
  { intros pre f l l' post Hl g Hg.
    apply elem_of_app in Hg as [Hg|Hg].
    { exists g. rewrite elem_of_app. auto. }
    apply elem_of_cons in Hg as [->|Hg].
    - exists (with_actions f l'). rewrite elem_of_app, elem_of_cons. auto.
    - exists g. rewrite elem_of_app, elem_of_cons. auto. }
  split; [|split].
  - intros forms forms' tm Hp. apply build_action_matrix_collect, Hsame.
    intros f. by rewrite Hp.
  - intros forms tm. apply build_action_matrix_collect, Hsame.
    intros f. rewrite elem_of_app. tauto.
  - intros pre f ras ras' post tm Hras.
    apply build_action_matrix_collect, collect_actions_covered.
    + apply Hone. intros raw. apply Hras.
    + apply Hone. intros raw. apply Hras.
Qed.

Lemma py_mapped_unmapped : py "mapped" <> py "unmapped".
Proof. discriminate. Qed.

Section FilterAll.

Context {A : Type} (P : A -> Prop) `{forall x, Decision (P x)}.

Lemma filter_all (l : list A) : Forall P l -> filter P l = l.
Proof.
  induction 1 as [|x l Hx _ IH]; [done|].
  rewrite filter_cons, decide_True by done. by rewrite IH.
Qed.

Lemma filter_none (l : list A) : Forall (fun x => ~ P x) l -> filter P l = [].
Proof.
  induction 1 as [|x l Hx _ IH]; [done|].
  by rewrite filter_cons, decide_False.
Qed.

End FilterAll.

(** The matrix has one row for each distinct canonical action; the
    number of mapped rows is at most the number of rows, it is zero
    for an empty ticket map, and it is the number of rows when every
    canonical action is a key of the ticket map. *)
Theorem build_action_matrix_counts (forms : list FormSection) :
  (forall ticket_map,
     length (build_action_matrix forms ticket_map)
     = size (dom (collect_actions forms))
     /\ (mapped_count (build_action_matrix forms ticket_map)
         <= length (build_action_matrix forms ticket_map))%nat)
  /\ mapped_count (build_action_matrix forms ∅) = 0%nat
  /\ (forall ticket_map,
        (forall c, sourced forms c -> is_Some (ticket_map !! c)) ->
        mapped_count (build_action_matrix forms ticket_map)
        = length (build_action_matrix forms ticket_map)).
Proof.
  split; [|split].
  - intros tm. split; [|apply length_filter].
    rewrite <- (length_fmap row_action), build_action_matrix_actions.
    by rewrite py_sorted_perm.
  - unfold mapped_count. rewrite filter_none; [done|].
    eapply Forall_impl; [apply build_action_matrix_rows|].
    intros row Hrow. cbv beta. rewrite Hrow, make_row_status.
    assert (Hnone : reconcile (∅ : gmap pystr csvrow) (row_action row)
              (aliases_of (collect_actions forms) (row_action row)) = None).
    { apply reconcile_None. split; [apply lookup_empty|].
      apply Forall_forall. intros a _. apply lookup_empty. }
    rewrite Hnone. intros H. symmetry in H. by apply py_mapped_unmapped in H.
  - intros tm Hall. unfold mapped_count. rewrite filter_all; [done|].
    apply Forall_forall. intros row Hin.
    pose proof (build_action_matrix_row_sourced _ _ _ Hin) as Hs.
    apply Hall in Hs as [e He].
    pose proof (proj1 (Forall_forall _ _)
                  (build_action_matrix_rows forms tm) row Hin) as Hrow.
    rewrite Hrow, make_row_status. unfold reconcile. by rewrite He.
Qed.

(** ** [sorted], continued *)

Lemma str_le_sorted_strict (l : list pystr) :
  StronglySorted str_le l -> NoDup l -> StronglySorted str_lt l.
Proof.
  induction 1 as [|x k Hk IH Hx]; intros Hnd; [constructor|].
  apply NoDup_cons in Hnd as [Hx' Hnd]. constructor; [by apply IH|].
  apply Forall_forall. intros y Hy. split.
  - by apply (proj1 (Forall_forall _ _) Hx).
  - intros ->. done.
Qed.

Lemma StronglySorted_fmap_key {A} (key : A -> pystr) (l : list A) :
  StronglySorted (key_le key) l -> StronglySorted str_le (key <$> l).
Proof.
  induction 1 as [|x l _ IH Hx]; [constructor|].
  rewrite fmap_cons. constructor; [done|]. by apply Forall_fmap.
Qed.

(** The sort is stable: the elements of one key keep their order. *)
Lemma sort_by_stable {A} (key : A -> pystr) (k : pystr) (l : list A) :
  filter (fun x => key x = k) (sort_by key l) = filter (fun x => key x = k) l.
Proof.
  assert (Hins : forall x l',
            filter (fun x => key x = k) (insert_by key x l')
            = filter (fun x => key x = k) (x :: l')).
  { intros x l'. induction l' as [|y l' IH]; [done|]. simpl.
    destruct (str_leb (key x) (key y)) eqn:Hxy; [done|].
    rewrite (filter_cons _ y), IH, !filter_cons.
    destruct (decide (key y = k)) as [Hy|Hy]; [|done].
    destruct (decide (key x = k)) as [Hx|Hx]; [|done].
    assert (str_le (key x) (key y)) by (rewrite Hx, Hy; reflexivity).
    unfold str_le in *. congruence. }
  induction l as [|x l IH]; [done|].
  simpl. by rewrite Hins, !filter_cons, IH.
Qed.

(** ** The form schema, continued *)

Section FormSchemaOrder.

Context (lower : pystr -> pystr).

Lemma form_entry_name form :
  fe_form_name (form_entry lower form) = form_name form.
Proof. done. Qed.

Lemma filter_form_entry name (l : list FormSection) :
  filter (fun e => fe_form_name e = name) (form_entry lower <$> l)
  = form_entry lower <$> filter (fun form => form_name form = name) l.
Proof.
  induction l as [|x l IH]; [done|].
  rewrite fmap_cons, !filter_cons, form_entry_name.
  destruct (decide (form_name x = name)); [|exact IH].
  by rewrite fmap_cons, IH.
Qed.

(** The entries of the schema are those of the forms of its
    allow-list, in ascending order of their names, forms of one name
    in their order in the input; a form outside the allow-list does
    not count. *)
Theorem build_form_schema_order (now : pystr) :
  (forall forms,
     let entries := doc_forms (build_form_schema lower now forms) in
     let selected :=
       filter (fun form => form_name form ∈ target_forms) forms in
     StronglySorted str_le (fe_form_name <$> entries)
     /\ entries ≡ₚ form_entry lower <$> selected
     /\ length entries = length selected
     /\ forall name,
          filter (fun e => fe_form_name e = name) entries
          = form_entry lower
              <$> filter (fun form => form_name form = name) selected)
  /\ (forall pre f post,
        form_name f ∉ target_forms ->
        doc_forms (build_form_schema lower now (pre ++ f :: post))
        = doc_forms (build_form_schema lower now (pre ++ post))).
Proof.
  split.
  - intros forms. cbv zeta. unfold build_form_schema. cbv zeta. simpl.
    set (selected := filter (fun form => form_name form ∈ target_forms) forms).
    split.
    { rewrite <- list_fmap_compose.
      apply (StronglySorted_fmap_key form_name), sort_by_sorted. }
    split; [by rewrite sort_by_perm|].
    split; [by rewrite !length_fmap, sort_by_perm|].
    intros name.
    rewrite <- (sort_by_stable form_name name selected).
    apply filter_form_entry.
  - intros pre f post Hf. unfold build_form_schema. cbv zeta. simpl.
    by rewrite !filter_app, filter_cons, decide_False.
Qed.

End FormSchemaOrder.

Lemma tallies_bump f ids counts c :
  tallies f ids counts -> tallies f (ids ++ [c]) (bump (f c) counts).
Proof.
  intros Ht k. unfold bump, count_of. rewrite filter_app, length_app.
  rewrite filter_cons, filter_nil.
  destruct (decide (f c = k)) as [<-|Hne].
  - rewrite lookup_insert_eq, (Ht (f c)). unfold count_of.
    destruct (length (filter _ ids)); simpl; f_equal; lia.
  - rewrite lookup_insert_ne, (Ht k) by done. unfold count_of. simpl.
    by rewrite Nat.add_0_r.
Qed.

Section FormSchemaTally.

Context (lower : pystr -> pystr).

Lemma foldl_tally_control_tallies seen t control_ids :
  tallies infer_control_kind seen (t_kind_counts t) ->
  tallies (infer_control_domain lower) seen (t_domain_counts t) ->
  let t' := foldl (tally_control lower) t control_ids in
  tallies infer_control_kind (seen ++ control_ids) (t_kind_counts t')
  /\ tallies (infer_control_domain lower) (seen ++ control_ids)
       (t_domain_counts t').
Proof.
  revert seen t. induction control_ids as [|c l IH]; intros seen t Hk Hd.
  { cbn zeta. simpl. by rewrite app_nil_r. }
  cbn zeta. simpl. rewrite (cons_middle c seen l), app_assoc.
  apply IH; unfold tally_control; simpl; by apply tallies_bump.
Qed.

Lemma sorted_items_tallies f ids counts :
  tallies f ids counts ->
  StronglySorted str_lt (fst <$> sorted_items counts)
  /\ forall k n,
       (k, n) ∈ sorted_items counts
       <-> n = count_of f k ids /\ (0 < n)%nat.
Proof.
  intros Ht. unfold sorted_items. split.
  - apply str_le_sorted_strict.
    + apply (StronglySorted_fmap_key fst), sort_by_sorted.
    + rewrite sort_by_perm. apply NoDup_fst_map_to_list.
  - intros k n. rewrite sort_by_perm, elem_of_map_to_list, (Ht k).
    destruct (count_of f k ids) as [|m]; split.
    + done.
    + intros [-> ?]. lia.
    + intros [= <-]. split; [done|lia].
    + by intros [-> _].
Qed.

(** The kind counts and the domain counts of an entry list the
    categories that occur among the controls of the form, in strictly
    ascending order, each with the number of controls the classifier
    puts in it. *)
Theorem form_entry_tallies (form : FormSection) :
  let e := form_entry lower form in
  (StronglySorted str_lt (fst <$> fe_kind_counts e)
   /\ forall k n,
        (k, n) ∈ fe_kind_counts e
        <-> n = count_of infer_control_kind k (controls form) /\ (0 < n)%nat)
  /\ (StronglySorted str_lt (fst <$> fe_domain_counts e)
      /\ forall k n,
           (k, n) ∈ fe_domain_counts e
           <-> n = count_of (infer_control_domain lower) k (controls form)
               /\ (0 < n)%nat).
Proof.
  cbn zeta. unfold form_entry. cbn zeta. simpl.
  destruct (foldl_tally_control_tallies [] (mkTally [] ∅ ∅) (controls form))
    as [Hk Hd]; try (intros k; apply lookup_empty).
  cbn zeta in Hk, Hd. simpl in Hk, Hd.
  split; by apply sorted_items_tallies.
Qed.

End FormSchemaTally.

(** ** The cluster classifier, continued *)

Lemma startswith_app_prefix a p q :
  startswith a (p ++ q) = true -> startswith a p = true.
Proof.
  rewrite !startswith_prefix. intros [t ->]. exists (q ++ t).
  by rewrite app_assoc.
Qed.

Lemma cluster_rules_act :
  Forall (fun rule => Forall (fun p => exists q, p = py "act" ++ q) (fst rule))
         cluster_rules.
Proof.
  unfold cluster_rules.
  repeat (apply Forall_cons_2;
          [cbn [fst];
           repeat (apply Forall_cons_2; [eexists; reflexivity|]);
           apply Forall_nil_2|]).
  apply Forall_nil_2.
Qed.

Lemma startswith_misspelt_contains c :
  startswith c (py "actLinePallet") = true -> contains c LinePallet = true.
Proof.
  intros H. apply startswith_prefix in H as [t ->].
  apply contains_occurs. exists (py "act"), t. reflexivity.
Qed.

(** A name that does not start with act is in the cluster Other; a
    name is in the cluster LineTypePalette exactly when it starts with
    actLinePalette or with the misspelt actLinePallet; and a canonical
    action never starts with the misspelt prefix, so in the matrix the
    cluster is LineTypePalette exactly for the actions that start with
    actLinePalette. *)
Theorem classify_cluster_prefixes :
  (forall action,
     startswith action (py "act") = false ->
     classify_cluster action = py "Other")
  /\ (forall action,
        classify_cluster action = py "LineTypePalette"
        <-> startswith action (py "actLinePalette") = true
            \/ startswith action (py "actLinePallet") = true)
  /\ (forall raw_action,
        startswith (canonicalize_action raw_action) (py "actLinePallet")
        = false
        /\ (classify_cluster (canonicalize_action raw_action)
            = py "LineTypePalette"
            <-> startswith (canonicalize_action raw_action)
                  (py "actLinePalette") = true)).
Proof.
  assert (Hiff : forall action,
            classify_cluster action = py "LineTypePalette"
            <-> startswith action (py "actLinePalette") = true
                \/ startswith action (py "actLinePallet") = true).
  { intros a. split.
    - unfold classify_cluster.
      repeat (match goal with
              | |- context [if ?b then _ else _] => destruct b eqn:?
              end; try (intros H; discriminate H)).
      intros _. by apply orb_true_iff.
    - intros H.
      assert (H1 : startswith_any a
                [py "actAlign"; py "actRotate"; py "actScale";
                 py "actSpecify"; py "actSetAs"; py "actMoveOrCopy"] = false).
      { destruct H as [H|H]; apply startswith_prefix in H as [t ->];
          reflexivity. }
      unfold classify_cluster. rewrite H1.
      apply orb_true_iff in H. by rewrite H. }
  assert (Hmis : forall raw,
            startswith (canonicalize_action raw) (py "actLinePallet") = false).
  { intros raw. apply not_true_is_false. intros H.
    apply startswith_misspelt_contains in H.
    by rewrite canonicalize_action_clean in H. }
  split; [|split; [exact Hiff|]].
  - intros a Ha. rewrite classify_cluster_first_match.
    apply first_match_none. intros rule Hin.
    pose proof (proj1 (Forall_forall _ _) cluster_rules_act rule Hin) as Hr.
    unfold startswith_any. apply not_true_is_false. intros Hex.
    apply existsb_exists in Hex as (p & Hp & Hs).
    apply list_elem_of_In in Hp.
    apply (proj1 (Forall_forall _ _) Hr) in Hp as [q ->].
    apply startswith_app_prefix in Hs. congruence.
  - intros raw. split; [apply Hmis|].
    rewrite Hiff, Hmis. split; [by intros [?|?]|by left].
Qed.

(** ** The entry point *)

Lemma lookup_first_Some (ticket_map : gmap pystr csvrow) aliases entry :
  lookup_first ticket_map aliases = Some entry ->
  exists alias, alias ∈ aliases /\ ticket_map !! alias = Some entry.
Proof.
  induction aliases as [|a l IH]; simpl; [done|].
  destruct (ticket_map !! a) as [e|] eqn:Ha.
  - intros [= <-]. exists a. split; [left|done].
  - intros H. destruct (IH H) as (alias & ? & ?).
    exists alias. split; [by right|done].
Qed.

Lemma build_action_matrix_nil ticket_map : build_action_matrix [] ticket_map = [].
Proof.
  unfold build_action_matrix, collect_actions. simpl.
  by rewrite dom_empty_L, elements_empty.
Qed.

Section MainFacts.

Context (lower : pystr -> pystr) (now : pystr).

(** A form-details file without a header line gives an empty matrix, a
    schema without forms and the numbers 0, 0 and 0, whatever the
    ticket map holds. *)
Theorem main_no_header (lines : list pystr) (csv_rows : list csvrow) :
  Forall (fun l => header_of l = None) lines ->
  main lower now lines csv_rows
  = mkMainOutput []
      (mkSchemaDocument now (FORM_DETAILS_PATH, ACTION_TICKET_MAP_PATH) [])
      (mkSummary 0 0 0).
Proof.
  intros Hl. unfold main.
  assert (Hp : parse_form_sections lines = []).
  { unfold parse_form_sections.
    by rewrite (foldl_parse_line_idle lines Hl
                  : foldl _ (mkParseState [] None ModeNone) _ = _). }
  rewrite Hp. cbv zeta. by rewrite build_action_matrix_nil.
Qed.

(** From the files to the matrix: every alias of a row is the trimmed,
    non-empty text of an entry line of the form details and has the
    action of the row as its canonical form; every source form is an
    allow-listed name a header line of the file states; and a mapped
    row takes its ticket fields from a row of the CSV file whose
    trimmed action is the canonical action or one of the aliases. *)
Theorem main_rows_traced (lines : list pystr) (csv_rows : list csvrow) :
  Forall (fun row =>
    let by_action := collect_actions (parse_form_sections lines) in
    let aliases := aliases_of by_action (row_action row) in
    Forall (fun raw =>
              entry_of lines raw /\ raw <> [] /\ strip raw = raw
              /\ canonicalize_action raw = row_action row) aliases
    /\ Forall (fun name =>
                 name ∈ source_forms
                 /\ exists header id,
                      header ∈ lines /\ header_of header = Some id
                      /\ snd id = name)
              (forms_of by_action (row_action row))
    /\ (row_status row = py "mapped" ->
        exists csv_row,
          csv_row ∈ csv_rows
          /\ (row_key csv_row = row_action row \/ row_key csv_row ∈ aliases)
          /\ mapped_from row csv_row))
  (out_action_rows (main lower now lines csv_rows)).
Proof.
  unfold main. cbv zeta. simpl.
  set (forms := parse_form_sections lines).
  set (tm := load_action_ticket_map csv_rows).
  pose proof (parse_form_sections_of lines) as Hof. fold forms in Hof.
  rewrite Forall_forall in Hof.
  eapply Forall_impl; [apply build_action_matrix_rows|].
  intros row Hrow. cbv beta.
  split; [|split].
  - apply Forall_forall. intros raw Hraw.
    apply aliases_of_elem in Hraw as (f & Hf & _ & Hin & Hc & _).
    destruct (Hof f Hf) as (_ & Ha & _).
    rewrite Forall_forall in Ha. specialize (Ha raw Hin).
    destruct (entry_of_trimmed lines raw Ha). done.
  - apply Forall_forall. intros name Hname.
    apply forms_of_elem in Hname as (f & raw & Hf & Hsrc & <- & _).
    split; [done|]. destruct (Hof f Hf) as ((header & Hh & Hid) & _).
    exists header, (section_id f). done.
  - intros Hst.
    destruct (reconcile tm (row_action row)
                (aliases_of (collect_actions forms) (row_action row)))
      as [e|] eqn:Hr.
    2:{ rewrite Hrow, make_row_status, Hr in Hst.
        symmetry in Hst. by apply py_mapped_unmapped in Hst. }
    exists e.
    assert (Hm : mapped_from row e).
    { rewrite Hrow. by apply make_row_mapped. }
    unfold reconcile in Hr.
    destruct (tm !! row_action row) as [e'|] eqn:Hc.
    + injection Hr as ->.
      destruct (proj1 (load_action_ticket_map_filed csv_rows) _ _ Hc)
        as (? & ? & _).
      split; [done|]. split; [by left|done].
    + apply lookup_first_Some in Hr as (alias & Hal & Ha).
      destruct (proj1 (load_action_ticket_map_filed csv_rows) _ _ Ha)
        as (? & Hk & _).
      split; [done|]. split; [right; by rewrite Hk|done].
Qed.

End MainFacts.

Lemma main_no_header_witness :
  main ascii_lower (py "2024-01-01T00:00:00+00:00")
    [py "rsrc dump"; py "Actions (1):"; py "actLost"] demo_rows
  = mkMainOutput []
      (mkSchemaDocument (py "2024-01-01T00:00:00+00:00")
         (FORM_DETAILS_PATH, ACTION_TICKET_MAP_PATH) [])
      (mkSummary 0 0 0).
Proof.
  apply main_no_header.
  repeat (apply Forall_cons_2; [reflexivity|]). apply Forall_nil_2.
Defined.

(** A run of the whole script on the small inputs. *)
Example main_demo :
  out_summary (main ascii_lower (py "2024-01-01T00:00:00+00:00")
                 demo_lines demo_rows)
  = mkSummary 2 1 1.
Proof. vm_compute. reflexivity. Qed.

(** ** Line ends *)

Lemma rstrip_nl_eol raw_line : rstrip_nl (raw_line ++ [10]) = rstrip_nl raw_line.
Proof.
  unfold rstrip_nl. apply rstrip_by_pad. by repeat constructor.
Qed.

Lemma parse_line_eol st raw_line :
  parse_line st (raw_line ++ [10]) = parse_line st raw_line.
Proof. unfold parse_line. by rewrite rstrip_nl_eol. Qed.

(** The parser reads a line with and without its line feed alike, so
    a last line without a line end is read like the others. *)
Theorem parse_form_sections_eol (lines : list pystr) :
  parse_form_sections ((fun l => l ++ [10]) <$> lines)
  = parse_form_sections lines.
Proof.
  unfold parse_form_sections. f_equal.
  generalize (mkParseState [] None ModeNone).
  induction lines as [|l lines IH]; intros st; [done|].
  rewrite fmap_cons. cbn [foldl]. by rewrite parse_line_eol, IH.
Qed.
